(** * web-voice-hook: codec and connection life cycle

    A shallow embedding of [src/webVoiceUtils.ts] (module [Codec]), of the
    React hook [useWebSocketAudio] of [src/useWebVoice.ts] (module [Hook])
    and of the capture worklet [audio-processor.js] (module [Worklet]), with
    the properties of the specification stated over them.

    Conventions.
    - Int16/Uint8 array elements are [Z]; the typed-array store that wraps a
      number into the element range is written out ([toInt16], [toUint8]).
    - Float32 samples are exact rationals ([Q]).  The products and
      truncations of the encoder are exact on binary32 inputs; the rounding
      of a quotient to binary32 in the decoder is not part of the model.
    - Browser objects (WebSocket, AudioContext, MediaStream, the analyzer)
      are handles in the hook state; every call on them is recorded, in
      program order, in the list of effects an action returns. *)

From Stdlib Require Import ZArith QArith Qminmax Qabs Qround Lia String Ascii List Bool.
From stdpp Require Import base list.
Import ListNotations.

Local Open Scope Z_scope.

(* ===================================================================== *)
(** ** webVoiceUtils.ts *)
(* ===================================================================== *)

Module Codec.

(** [SAMPLE_RATE], [CHANNELS], [BITS_PER_SAMPLE]. *)
Definition SAMPLE_RATE : Z := 44100.
Definition CHANNELS : Z := 1.
Definition BITS_PER_SAMPLE : Z := 16.

(** Storing a number into an [Int16Array] slot: the fraction is dropped
    (towards zero) and the integer is wrapped into [-32768, 32767]. *)
Definition truncate (q : Q) : Z := Z.quot (Qnum q) (Z.pos (Qden q)).
Definition wrapInt16 (z : Z) : Z := (z + 32768) mod 65536 - 32768.
Definition toInt16 (q : Q) : Z := wrapInt16 (truncate q).

(** Storing into a [Uint8Array] slot. *)
Definition toUint8 (z : Z) : Z := z mod 256.

(** The result of a 32-bit shift, as a signed 32-bit integer. *)
Definition toInt32 (z : Z) : Z := (z + 2147483648) mod 4294967296 - 2147483648.

(** [s < 0] on rationals, as a boolean. *)
Definition Qneg_bool (s : Q) : bool := negb (Qle_bool 0 s).

(** One iteration of the loop of [floatTo16BitPCM]:
    [s = Math.max(-1, Math.min(1, x)); out = s < 0 ? s * 0x8000 : s * 0x7fff]. *)
Definition floatTo16BitPCM_sample (x : Q) : Z :=
  let s := Qmax (-1) (Qmin 1 x) in
  toInt16 (if Qneg_bool s then s * 32768 else s * 32767)%Q.

Definition floatTo16BitPCM (float32Array : list Q) : list Z :=
  map floatTo16BitPCM_sample float32Array.

(** One iteration of the loop of [convertPCMDataToFloat32]:
    [pcm / (pcm < 0 ? 0x8000 : 0x7fff)], as the exact quotient; the code
    stores its rounding to binary32. *)
Definition convertPCMDataToFloat32_sample (p : Z) : Q :=
  (inject_Z p / (if p <? 0 then 32768 else 32767))%Q.

Definition convertPCMDataToFloat32 (pcm16Data : list Z) : list Q :=
  map convertPCMDataToFloat32_sample pcm16Data.

(** Encoding one sample to PCM16 and decoding it again. *)
Definition pcmRoundTrip (x : Q) : Q :=
  convertPCMDataToFloat32_sample (floatTo16BitPCM_sample x).

(** [base64ToPCM16Data] after [atob]: the bytes are viewed as little-endian
    16-bit words; [new Int16Array(buffer)] throws a RangeError when the byte
    length is odd ([None]). *)
Fixpoint bytesToPCM16 (bytes : list Z) : option (list Z) :=
  match bytes with
  | [] => Some []
  | [_] => None
  | lo :: hi :: rest =>
      match bytesToPCM16 rest with
      | Some l => Some (wrapInt16 (lo + 256 * hi) :: l)
      | None => None
      end
  end.

(** *** mu-law *)

Definition BIAS : Z := 0x84.
Definition CLIP : Z := 32635.

(** The exponent loop of [linearToMuLaw]:
    [for (; exponent > 0; exponent--) { if (sample & 0x4000) break; sample <<= 1; }]
    returning the final [exponent] and [sample]. *)
Fixpoint exponentLoop (exponent : nat) (sample : Z) : nat * Z :=
  match exponent with
  | O => (O, sample)
  | S e =>
      if negb (Z.land sample 0x4000 =? 0) then (exponent, sample)
      else exponentLoop e (toInt32 (Z.shiftl sample 1))
  end.

(** The body of the outer loop of [linearToMuLaw] for one Int16 sample. *)
Definition linearToMuLaw_sample (pcm : Z) : Z :=
  let sample := pcm in
  let sign := Z.land (Z.shiftr sample 8) 0x80 in
  let sample := if negb (sign =? 0) then - sample else sample in
  let sample := if sample >? CLIP then CLIP else sample in
  let sample := sample + BIAS in
  let '(exponent, sample) := exponentLoop 7 sample in
  let mantissa := Z.land (Z.shiftr sample 9) 0x0f in
  let ulawByte :=
    Z.lnot (Z.lor (Z.lor sign (Z.shiftl (Z.of_nat exponent) 4)) mantissa) in
  toUint8 (Z.land ulawByte 0xff).

Definition linearToMuLaw (pcm : list Z) : list Z :=
  map linearToMuLaw_sample pcm.

(** The mu-law encoder of the specification, written from its words (bias
    0x84 added after the sign is taken, clip ceiling 32635, exponent found
    among the seven bit positions 14..8, the four bits below the leading
    bit as mantissa, complemented output carrying the sign bit): the G.711
    encoding of a 16-bit sample.  Used only to compare with
    [linearToMuLaw_sample]. *)
Definition muLawReference (pcm : Z) : Z :=
  let sign := if pcm <? 0 then 0x80 else 0 in
  let magnitude := Z.min (Z.abs pcm) CLIP + BIAS in
  let exponent := Z.log2 magnitude - 7 in
  let mantissa := Z.land (Z.shiftr magnitude (exponent + 3)) 0x0f in
  Z.land (Z.lnot (Z.lor (Z.lor sign (Z.shiftl exponent 4)) mantissa)) 0xff.

(** The Int16 range, for exhaustive checks. *)
Definition int16 (p : Z) : Prop := -32768 <= p <= 32767.

Fixpoint countUp (n : nat) (from : Z) : list Z :=
  match n with
  | O => []
  | S k => from :: countUp k (from + 1)
  end.

Definition allInt16 : list Z := countUp (Z.to_nat 65536) (-32768).


(** *** Bytes of typed arrays and of a DataView *)

(** The two bytes an [Int16Array] element occupies in its buffer
    (little-endian, two's complement). *)
Definition int16Bytes (v : Z) : list Z := [v mod 256; (v / 256) mod 256].

(** ['R'.charCodeAt(0)] and the like. *)
Definition charCode (c : ascii) : Z := Z.of_N (Ascii.N_of_ascii c).

(** [view.setUint8], [view.setUint16(.., true)] and [view.setUint32(.., true)]
    on the bytes of a buffer.  (A DataView throws on an offset outside the
    buffer; every offset used below is inside.) *)
Definition setUint8 (byteOffset : nat) (value : Z) (view : list Z) : list Z :=
  <[byteOffset := value mod 256]> view.

Definition setUint16 (byteOffset : nat) (value : Z) (view : list Z) : list Z :=
  setUint8 (byteOffset + 1) (value / 256) (setUint8 byteOffset value view).

Definition setUint32 (byteOffset : nat) (value : Z) (view : list Z) : list Z :=
  setUint8 (byteOffset + 3) (value / 16777216)
    (setUint8 (byteOffset + 2) (value / 65536)
       (setUint8 (byteOffset + 1) (value / 256)
          (setUint8 byteOffset value view))).

(** The readers of the same fields, [view.getUint16(.., true)] and
    [view.getUint32(.., true)]; they are used to state what the header
    holds. *)
Definition getUint16 (byteOffset : nat) (view : list Z) : Z :=
  nth byteOffset view 0 + 256 * nth (byteOffset + 1) view 0.

Definition getUint32 (byteOffset : nat) (view : list Z) : Z :=
  nth byteOffset view 0 + 256 * nth (byteOffset + 1) view 0
  + 65536 * nth (byteOffset + 2) view 0
  + 16777216 * nth (byteOffset + 3) view 0.

(** [createWavHeader]: the writes of the source, in its order, on a buffer
    of 44 zero bytes. *)
Definition createWavHeader (dataLength : Z) : list Z :=
  let view := repeat 0 44 in
  (* "RIFF" chunk descriptor *)
  let view := setUint8 0 (charCode "R") view in
  let view := setUint8 1 (charCode "I") view in
  let view := setUint8 2 (charCode "F") view in
  let view := setUint8 3 (charCode "F") view in
  (* Total file size *)
  let view := setUint32 4 (dataLength + 36) view in
  (* "WAVE" format *)
  let view := setUint8 8 (charCode "W") view in
  let view := setUint8 9 (charCode "A") view in
  let view := setUint8 10 (charCode "V") view in
  let view := setUint8 11 (charCode "E") view in
  (* "fmt " sub-chunk *)
  let view := setUint8 12 (charCode "f") view in
  let view := setUint8 13 (charCode "m") view in
  let view := setUint8 14 (charCode "t") view in
  let view := setUint8 15 (charCode " ") view in
  let view := setUint32 16 16 view in
  let view := setUint16 20 1 view in
  let view := setUint16 22 CHANNELS view in
  let view := setUint32 24 SAMPLE_RATE view in
  let view := setUint32 28 (SAMPLE_RATE * CHANNELS * (BITS_PER_SAMPLE / 8)) view in
  let view := setUint16 32 (CHANNELS * (BITS_PER_SAMPLE / 8)) view in
  let view := setUint16 34 BITS_PER_SAMPLE view in
  (* "data" sub-chunk *)
  let view := setUint8 36 (charCode "d") view in
  let view := setUint8 37 (charCode "a") view in
  let view := setUint8 38 (charCode "t") view in
  let view := setUint8 39 (charCode "a") view in
  setUint32 40 dataLength view.

(** [convertPCMDataWithWavHeaderToFloat32]: the header, viewed as an
    [Int16Array], is put in front of the samples and the whole is
    converted.  [pcm16Data.byteLength] is twice the number of samples. *)
Definition convertPCMDataWithWavHeaderToFloat32 (pcm16Data : list Z)
  : option (list Q) :=
  let wavHeader := createWavHeader (2 * Z.of_nat (length pcm16Data)) in
  match bytesToPCM16 wavHeader with
  | Some headerView => Some (convertPCMDataToFloat32 (headerView ++ pcm16Data))
  | None => None
  end.

(** *** Resampling

    [resampleAudio] in exact arithmetic: the rounding of the float
    operations is not modelled, so where the code's double product
    [audioData.length * ratio] rounds across an integer the length here
    differs from the code's by one (from 44000 to 44100 Hz, for instance);
    at equal rates the ratio is 1 on both sides.  [None] stands for the RangeError of
    [new Float32Array(newLength)] on a negative or infinite length; a NaN
    length gives the empty array. *)
Definition interpolate (audioData : list Q) (ratio : Q) (i : nat) : Q :=
  let position := (inject_Z (Z.of_nat i) / ratio)%Q in
  let index := Qfloor position in
  let fraction := (position - inject_Z index)%Q in
  if Z.of_nat (length audioData) - 1 <=? index
  then nth (length audioData - 1) audioData 0%Q
  else (nth (Z.to_nat index) audioData 0 * (1 - fraction)
        + nth (Z.to_nat index + 1) audioData 0 * fraction)%Q.

Definition resampleAudio (audioData : list Q)
    (originalSampleRate targetSampleRate : Z) : option (list Q) :=
  let len := Z.of_nat (length audioData) in
  if originalSampleRate =? 0 then
    (* the ratio is NaN or infinite *)
    if (targetSampleRate =? 0) || (len =? 0) then Some [] else None
  else
    let ratio := (inject_Z targetSampleRate / inject_Z originalSampleRate)%Q in
    let newLength := Qfloor (inject_Z len * ratio) in
    if newLength <? 0 then None
    else Some (map (interpolate audioData ratio) (seq 0 (Z.to_nat newLength))).

End Codec.


(* ===================================================================== *)
(** ** useWebVoice.ts *)
(* ===================================================================== *)

Module Hook.

Import Codec.

Local Open Scope string_scope.
Local Open Scope list_scope.
Local Open Scope Z_scope.

(** *** Browser objects and the wire protocol *)

(** [WebSocket.readyState]. *)
Inductive ReadyState : Type := CONNECTING | OPEN | CLOSING | CLOSED.

(** Which function installed the handlers of a socket: [connect], or
    [reconnect] called with or without [onConnectionSuccess]. *)
Inductive Handlers : Type :=
| byConnect
| byReconnect (onConnectionSuccess : bool).

Record WebSocket : Type := mkWebSocket {
  readyState : ReadyState;
  handlers : Handlers
}.

(** The argument of [onClose]. *)
Inductive CloseSource : Type := server | client.

(** Frames the hook sends ([JSON.stringify] of these objects). *)
Inductive OutFrame : Type :=
| start_frame
| media_frame (payload : string) (timestamp : Q)
| TTS_PLAYING (tts_playing : bool)
| EOC_frame.

(** A parsed inbound message ([ISocketEventData]): [payload] is
    [message.media?.payload]. *)
Record ISocketEventData : Type := mkMessage {
  event : string;
  payload : option string;
  sample_rate : option Z
}.

(** [JSON.parse(event.data)]: it throws, or yields a falsy value, or an
    object. *)
Inductive Parsed : Type :=
| parse_error
| parsed_falsy
| parsed (message : ISocketEventData).

(** Calls on browser objects and on the caller's callbacks. *)
Inductive Effect : Type :=
| NewWebSocket (w : nat)
| WsSend (w : nat) (frame : OutFrame)
| WsClose (w : nat)
| OnClose (source : CloseSource)
| OnException
| OnConnectionSuccess
| LocationReload
| NewAudioContext
| AudioContextClose
| BufferSourceStart (audioData : list Q)
| BufferSourceStop
| BufferSourceDisconnect
| TracksStop (stream : nat)
| AnalyzerNew
| AnalyzerConnectInput
| AnalyzerStop
| AnalyzerDestroy
| WorkletDisconnect
| CaptureSourceDisconnect
| LogInfo (msg : string)
| LogError (msg : string).

(** *** The refs and React state of one hook instance *)

Record Hook : Type := mkHook {
  sockets : list WebSocket;  (* every WebSocket created so far; a socket is named by its index *)
  websocketRef : option nat;  (* websocketRef.current *)
  audioContextRef : bool;  (* audioContextRef.current is an open AudioContext *)
  sourceNodeRef : bool;  (* sourceNodeRef.current is set *)
  isPlayingRef : bool;
  isFirstChunk : bool;
  streamRef : option nat;  (* streamRef.current, a MediaStream handle *)
  isAudioNodesConnected : bool;
  isCleanedUp : bool;  (* the torn-down marker *)
  backendSampleRate : Z;
  isStopReceived : bool;
  lastSentTTSEvent : bool;
  chunkReceivedAt : Z;
  analyzerRef : bool;  (* analyzerRef.current is set *)
  isConnected : bool;  (* React state *)
  isPlaying : bool;  (* React state *)
  isPlayingAudio : bool;
  audioBufferRef : list (list Q);  (* the playback queue *)
  audioWorkletNode : bool;  (* capture worklet node of startProcessing *)
  sourceNode : bool  (* capture source node of startProcessing *)
}.

Definition set_sockets (v : list WebSocket) (s : Hook) : Hook :=
  {| sockets := v; websocketRef := websocketRef s; audioContextRef :=
     audioContextRef s; sourceNodeRef := sourceNodeRef s; isPlayingRef :=
     isPlayingRef s; isFirstChunk := isFirstChunk s; streamRef := streamRef
     s; isAudioNodesConnected := isAudioNodesConnected s; isCleanedUp :=
     isCleanedUp s; backendSampleRate := backendSampleRate s; isStopReceived
     := isStopReceived s; lastSentTTSEvent := lastSentTTSEvent s;
     chunkReceivedAt := chunkReceivedAt s; analyzerRef := analyzerRef s;
     isConnected := isConnected s; isPlaying := isPlaying s; isPlayingAudio
     := isPlayingAudio s; audioBufferRef := audioBufferRef s;
     audioWorkletNode := audioWorkletNode s; sourceNode := sourceNode s |}.
Definition set_websocketRef (v : option nat) (s : Hook) : Hook :=
  {| sockets := sockets s; websocketRef := v; audioContextRef :=
     audioContextRef s; sourceNodeRef := sourceNodeRef s; isPlayingRef :=
     isPlayingRef s; isFirstChunk := isFirstChunk s; streamRef := streamRef
     s; isAudioNodesConnected := isAudioNodesConnected s; isCleanedUp :=
     isCleanedUp s; backendSampleRate := backendSampleRate s; isStopReceived
     := isStopReceived s; lastSentTTSEvent := lastSentTTSEvent s;
     chunkReceivedAt := chunkReceivedAt s; analyzerRef := analyzerRef s;
     isConnected := isConnected s; isPlaying := isPlaying s; isPlayingAudio
     := isPlayingAudio s; audioBufferRef := audioBufferRef s;
     audioWorkletNode := audioWorkletNode s; sourceNode := sourceNode s |}.
Definition set_audioContextRef (v : bool) (s : Hook) : Hook :=
  {| sockets := sockets s; websocketRef := websocketRef s; audioContextRef
     := v; sourceNodeRef := sourceNodeRef s; isPlayingRef := isPlayingRef s;
     isFirstChunk := isFirstChunk s; streamRef := streamRef s;
     isAudioNodesConnected := isAudioNodesConnected s; isCleanedUp :=
     isCleanedUp s; backendSampleRate := backendSampleRate s; isStopReceived
     := isStopReceived s; lastSentTTSEvent := lastSentTTSEvent s;
     chunkReceivedAt := chunkReceivedAt s; analyzerRef := analyzerRef s;
     isConnected := isConnected s; isPlaying := isPlaying s; isPlayingAudio
     := isPlayingAudio s; audioBufferRef := audioBufferRef s;
     audioWorkletNode := audioWorkletNode s; sourceNode := sourceNode s |}.
Definition set_sourceNodeRef (v : bool) (s : Hook) : Hook :=
  {| sockets := sockets s; websocketRef := websocketRef s; audioContextRef
     := audioContextRef s; sourceNodeRef := v; isPlayingRef := isPlayingRef
     s; isFirstChunk := isFirstChunk s; streamRef := streamRef s;
     isAudioNodesConnected := isAudioNodesConnected s; isCleanedUp :=
     isCleanedUp s; backendSampleRate := backendSampleRate s; isStopReceived
     := isStopReceived s; lastSentTTSEvent := lastSentTTSEvent s;
     chunkReceivedAt := chunkReceivedAt s; analyzerRef := analyzerRef s;
     isConnected := isConnected s; isPlaying := isPlaying s; isPlayingAudio
     := isPlayingAudio s; audioBufferRef := audioBufferRef s;
     audioWorkletNode := audioWorkletNode s; sourceNode := sourceNode s |}.
Definition set_isPlayingRef (v : bool) (s : Hook) : Hook :=
  {| sockets := sockets s; websocketRef := websocketRef s; audioContextRef
     := audioContextRef s; sourceNodeRef := sourceNodeRef s; isPlayingRef :=
     v; isFirstChunk := isFirstChunk s; streamRef := streamRef s;
     isAudioNodesConnected := isAudioNodesConnected s; isCleanedUp :=
     isCleanedUp s; backendSampleRate := backendSampleRate s; isStopReceived
     := isStopReceived s; lastSentTTSEvent := lastSentTTSEvent s;
     chunkReceivedAt := chunkReceivedAt s; analyzerRef := analyzerRef s;
     isConnected := isConnected s; isPlaying := isPlaying s; isPlayingAudio
     := isPlayingAudio s; audioBufferRef := audioBufferRef s;
     audioWorkletNode := audioWorkletNode s; sourceNode := sourceNode s |}.
Definition set_isFirstChunk (v : bool) (s : Hook) : Hook :=
  {| sockets := sockets s; websocketRef := websocketRef s; audioContextRef
     := audioContextRef s; sourceNodeRef := sourceNodeRef s; isPlayingRef :=
     isPlayingRef s; isFirstChunk := v; streamRef := streamRef s;
     isAudioNodesConnected := isAudioNodesConnected s; isCleanedUp :=
     isCleanedUp s; backendSampleRate := backendSampleRate s; isStopReceived
     := isStopReceived s; lastSentTTSEvent := lastSentTTSEvent s;
     chunkReceivedAt := chunkReceivedAt s; analyzerRef := analyzerRef s;
     isConnected := isConnected s; isPlaying := isPlaying s; isPlayingAudio
     := isPlayingAudio s; audioBufferRef := audioBufferRef s;
     audioWorkletNode := audioWorkletNode s; sourceNode := sourceNode s |}.
Definition set_streamRef (v : option nat) (s : Hook) : Hook :=
  {| sockets := sockets s; websocketRef := websocketRef s; audioContextRef
     := audioContextRef s; sourceNodeRef := sourceNodeRef s; isPlayingRef :=
     isPlayingRef s; isFirstChunk := isFirstChunk s; streamRef := v;
     isAudioNodesConnected := isAudioNodesConnected s; isCleanedUp :=
     isCleanedUp s; backendSampleRate := backendSampleRate s; isStopReceived
     := isStopReceived s; lastSentTTSEvent := lastSentTTSEvent s;
     chunkReceivedAt := chunkReceivedAt s; analyzerRef := analyzerRef s;
     isConnected := isConnected s; isPlaying := isPlaying s; isPlayingAudio
     := isPlayingAudio s; audioBufferRef := audioBufferRef s;
     audioWorkletNode := audioWorkletNode s; sourceNode := sourceNode s |}.
Definition set_isAudioNodesConnected (v : bool) (s : Hook) : Hook :=
  {| sockets := sockets s; websocketRef := websocketRef s; audioContextRef
     := audioContextRef s; sourceNodeRef := sourceNodeRef s; isPlayingRef :=
     isPlayingRef s; isFirstChunk := isFirstChunk s; streamRef := streamRef
     s; isAudioNodesConnected := v; isCleanedUp := isCleanedUp s;
     backendSampleRate := backendSampleRate s; isStopReceived :=
     isStopReceived s; lastSentTTSEvent := lastSentTTSEvent s;
     chunkReceivedAt := chunkReceivedAt s; analyzerRef := analyzerRef s;
     isConnected := isConnected s; isPlaying := isPlaying s; isPlayingAudio
     := isPlayingAudio s; audioBufferRef := audioBufferRef s;
     audioWorkletNode := audioWorkletNode s; sourceNode := sourceNode s |}.
Definition set_isCleanedUp (v : bool) (s : Hook) : Hook :=
  {| sockets := sockets s; websocketRef := websocketRef s; audioContextRef
     := audioContextRef s; sourceNodeRef := sourceNodeRef s; isPlayingRef :=
     isPlayingRef s; isFirstChunk := isFirstChunk s; streamRef := streamRef
     s; isAudioNodesConnected := isAudioNodesConnected s; isCleanedUp := v;
     backendSampleRate := backendSampleRate s; isStopReceived :=
     isStopReceived s; lastSentTTSEvent := lastSentTTSEvent s;
     chunkReceivedAt := chunkReceivedAt s; analyzerRef := analyzerRef s;
     isConnected := isConnected s; isPlaying := isPlaying s; isPlayingAudio
     := isPlayingAudio s; audioBufferRef := audioBufferRef s;
     audioWorkletNode := audioWorkletNode s; sourceNode := sourceNode s |}.
Definition set_backendSampleRate (v : Z) (s : Hook) : Hook :=
  {| sockets := sockets s; websocketRef := websocketRef s; audioContextRef
     := audioContextRef s; sourceNodeRef := sourceNodeRef s; isPlayingRef :=
     isPlayingRef s; isFirstChunk := isFirstChunk s; streamRef := streamRef
     s; isAudioNodesConnected := isAudioNodesConnected s; isCleanedUp :=
     isCleanedUp s; backendSampleRate := v; isStopReceived := isStopReceived
     s; lastSentTTSEvent := lastSentTTSEvent s; chunkReceivedAt :=
     chunkReceivedAt s; analyzerRef := analyzerRef s; isConnected :=
     isConnected s; isPlaying := isPlaying s; isPlayingAudio :=
     isPlayingAudio s; audioBufferRef := audioBufferRef s; audioWorkletNode
     := audioWorkletNode s; sourceNode := sourceNode s |}.
Definition set_isStopReceived (v : bool) (s : Hook) : Hook :=
  {| sockets := sockets s; websocketRef := websocketRef s; audioContextRef
     := audioContextRef s; sourceNodeRef := sourceNodeRef s; isPlayingRef :=
     isPlayingRef s; isFirstChunk := isFirstChunk s; streamRef := streamRef
     s; isAudioNodesConnected := isAudioNodesConnected s; isCleanedUp :=
     isCleanedUp s; backendSampleRate := backendSampleRate s; isStopReceived
     := v; lastSentTTSEvent := lastSentTTSEvent s; chunkReceivedAt :=
     chunkReceivedAt s; analyzerRef := analyzerRef s; isConnected :=
     isConnected s; isPlaying := isPlaying s; isPlayingAudio :=
     isPlayingAudio s; audioBufferRef := audioBufferRef s; audioWorkletNode
     := audioWorkletNode s; sourceNode := sourceNode s |}.
Definition set_lastSentTTSEvent (v : bool) (s : Hook) : Hook :=
  {| sockets := sockets s; websocketRef := websocketRef s; audioContextRef
     := audioContextRef s; sourceNodeRef := sourceNodeRef s; isPlayingRef :=
     isPlayingRef s; isFirstChunk := isFirstChunk s; streamRef := streamRef
     s; isAudioNodesConnected := isAudioNodesConnected s; isCleanedUp :=
     isCleanedUp s; backendSampleRate := backendSampleRate s; isStopReceived
     := isStopReceived s; lastSentTTSEvent := v; chunkReceivedAt :=
     chunkReceivedAt s; analyzerRef := analyzerRef s; isConnected :=
     isConnected s; isPlaying := isPlaying s; isPlayingAudio :=
     isPlayingAudio s; audioBufferRef := audioBufferRef s; audioWorkletNode
     := audioWorkletNode s; sourceNode := sourceNode s |}.
Definition set_chunkReceivedAt (v : Z) (s : Hook) : Hook :=
  {| sockets := sockets s; websocketRef := websocketRef s; audioContextRef
     := audioContextRef s; sourceNodeRef := sourceNodeRef s; isPlayingRef :=
     isPlayingRef s; isFirstChunk := isFirstChunk s; streamRef := streamRef
     s; isAudioNodesConnected := isAudioNodesConnected s; isCleanedUp :=
     isCleanedUp s; backendSampleRate := backendSampleRate s; isStopReceived
     := isStopReceived s; lastSentTTSEvent := lastSentTTSEvent s;
     chunkReceivedAt := v; analyzerRef := analyzerRef s; isConnected :=
     isConnected s; isPlaying := isPlaying s; isPlayingAudio :=
     isPlayingAudio s; audioBufferRef := audioBufferRef s; audioWorkletNode
     := audioWorkletNode s; sourceNode := sourceNode s |}.
Definition set_analyzerRef (v : bool) (s : Hook) : Hook :=
  {| sockets := sockets s; websocketRef := websocketRef s; audioContextRef
     := audioContextRef s; sourceNodeRef := sourceNodeRef s; isPlayingRef :=
     isPlayingRef s; isFirstChunk := isFirstChunk s; streamRef := streamRef
     s; isAudioNodesConnected := isAudioNodesConnected s; isCleanedUp :=
     isCleanedUp s; backendSampleRate := backendSampleRate s; isStopReceived
     := isStopReceived s; lastSentTTSEvent := lastSentTTSEvent s;
     chunkReceivedAt := chunkReceivedAt s; analyzerRef := v; isConnected :=
     isConnected s; isPlaying := isPlaying s; isPlayingAudio :=
     isPlayingAudio s; audioBufferRef := audioBufferRef s; audioWorkletNode
     := audioWorkletNode s; sourceNode := sourceNode s |}.
Definition set_isConnected (v : bool) (s : Hook) : Hook :=
  {| sockets := sockets s; websocketRef := websocketRef s; audioContextRef
     := audioContextRef s; sourceNodeRef := sourceNodeRef s; isPlayingRef :=
     isPlayingRef s; isFirstChunk := isFirstChunk s; streamRef := streamRef
     s; isAudioNodesConnected := isAudioNodesConnected s; isCleanedUp :=
     isCleanedUp s; backendSampleRate := backendSampleRate s; isStopReceived
     := isStopReceived s; lastSentTTSEvent := lastSentTTSEvent s;
     chunkReceivedAt := chunkReceivedAt s; analyzerRef := analyzerRef s;
     isConnected := v; isPlaying := isPlaying s; isPlayingAudio :=
     isPlayingAudio s; audioBufferRef := audioBufferRef s; audioWorkletNode
     := audioWorkletNode s; sourceNode := sourceNode s |}.
Definition set_isPlaying (v : bool) (s : Hook) : Hook :=
  {| sockets := sockets s; websocketRef := websocketRef s; audioContextRef
     := audioContextRef s; sourceNodeRef := sourceNodeRef s; isPlayingRef :=
     isPlayingRef s; isFirstChunk := isFirstChunk s; streamRef := streamRef
     s; isAudioNodesConnected := isAudioNodesConnected s; isCleanedUp :=
     isCleanedUp s; backendSampleRate := backendSampleRate s; isStopReceived
     := isStopReceived s; lastSentTTSEvent := lastSentTTSEvent s;
     chunkReceivedAt := chunkReceivedAt s; analyzerRef := analyzerRef s;
     isConnected := isConnected s; isPlaying := v; isPlayingAudio :=
     isPlayingAudio s; audioBufferRef := audioBufferRef s; audioWorkletNode
     := audioWorkletNode s; sourceNode := sourceNode s |}.
Definition set_isPlayingAudio (v : bool) (s : Hook) : Hook :=
  {| sockets := sockets s; websocketRef := websocketRef s; audioContextRef
     := audioContextRef s; sourceNodeRef := sourceNodeRef s; isPlayingRef :=
     isPlayingRef s; isFirstChunk := isFirstChunk s; streamRef := streamRef
     s; isAudioNodesConnected := isAudioNodesConnected s; isCleanedUp :=
     isCleanedUp s; backendSampleRate := backendSampleRate s; isStopReceived
     := isStopReceived s; lastSentTTSEvent := lastSentTTSEvent s;
     chunkReceivedAt := chunkReceivedAt s; analyzerRef := analyzerRef s;
     isConnected := isConnected s; isPlaying := isPlaying s; isPlayingAudio
     := v; audioBufferRef := audioBufferRef s; audioWorkletNode :=
     audioWorkletNode s; sourceNode := sourceNode s |}.
Definition set_audioBufferRef (v : list (list Q)) (s : Hook) : Hook :=
  {| sockets := sockets s; websocketRef := websocketRef s; audioContextRef
     := audioContextRef s; sourceNodeRef := sourceNodeRef s; isPlayingRef :=
     isPlayingRef s; isFirstChunk := isFirstChunk s; streamRef := streamRef
     s; isAudioNodesConnected := isAudioNodesConnected s; isCleanedUp :=
     isCleanedUp s; backendSampleRate := backendSampleRate s; isStopReceived
     := isStopReceived s; lastSentTTSEvent := lastSentTTSEvent s;
     chunkReceivedAt := chunkReceivedAt s; analyzerRef := analyzerRef s;
     isConnected := isConnected s; isPlaying := isPlaying s; isPlayingAudio
     := isPlayingAudio s; audioBufferRef := v; audioWorkletNode :=
     audioWorkletNode s; sourceNode := sourceNode s |}.
Definition set_audioWorkletNode (v : bool) (s : Hook) : Hook :=
  {| sockets := sockets s; websocketRef := websocketRef s; audioContextRef
     := audioContextRef s; sourceNodeRef := sourceNodeRef s; isPlayingRef :=
     isPlayingRef s; isFirstChunk := isFirstChunk s; streamRef := streamRef
     s; isAudioNodesConnected := isAudioNodesConnected s; isCleanedUp :=
     isCleanedUp s; backendSampleRate := backendSampleRate s; isStopReceived
     := isStopReceived s; lastSentTTSEvent := lastSentTTSEvent s;
     chunkReceivedAt := chunkReceivedAt s; analyzerRef := analyzerRef s;
     isConnected := isConnected s; isPlaying := isPlaying s; isPlayingAudio
     := isPlayingAudio s; audioBufferRef := audioBufferRef s;
     audioWorkletNode := v; sourceNode := sourceNode s |}.
Definition set_sourceNode (v : bool) (s : Hook) : Hook :=
  {| sockets := sockets s; websocketRef := websocketRef s; audioContextRef
     := audioContextRef s; sourceNodeRef := sourceNodeRef s; isPlayingRef :=
     isPlayingRef s; isFirstChunk := isFirstChunk s; streamRef := streamRef
     s; isAudioNodesConnected := isAudioNodesConnected s; isCleanedUp :=
     isCleanedUp s; backendSampleRate := backendSampleRate s; isStopReceived
     := isStopReceived s; lastSentTTSEvent := lastSentTTSEvent s;
     chunkReceivedAt := chunkReceivedAt s; analyzerRef := analyzerRef s;
     isConnected := isConnected s; isPlaying := isPlaying s; isPlayingAudio
     := isPlayingAudio s; audioBufferRef := audioBufferRef s;
     audioWorkletNode := audioWorkletNode s; sourceNode := v |}.


(** The state of a freshly mounted hook ([useRef]/[useState] initial
    values). *)
Definition initial : Hook :=
  {| sockets := []; websocketRef := None; audioContextRef := false;
     sourceNodeRef := false; isPlayingRef := false; isFirstChunk := true;
     streamRef := None; isAudioNodesConnected := false; isCleanedUp := false;
     backendSampleRate := SAMPLE_RATE; isStopReceived := false;
     lastSentTTSEvent := false; chunkReceivedAt := 0; analyzerRef := false;
     isConnected := false; isPlaying := false; isPlayingAudio := false;
     audioBufferRef := []; audioWorkletNode := false; sourceNode := false |}.

(** *** Actions: state passing with a log of effects *)

Definition Action (A : Type) : Type := Hook -> A * Hook * list Effect.

Definition ret {A} (a : A) : Action A := fun s => (a, s, []).

Definition bind {A B} (m : Action A) (k : A -> Action B) : Action B :=
  fun s =>
    let '(a, s1, o1) := m s in
    let '(b, s2, o2) := k a s1 in
    (b, s2, o1 ++ o2).

Notation "x <- m ;; k" := (bind m (fun x => k))
  (at level 100, m at next level, right associativity).
Notation "m ;; k" := (bind m (fun _ => k))
  (at level 100, right associativity).

Definition emit (e : Effect) : Action unit := fun s => (tt, s, [e]).
Definition read {A} (f : Hook -> A) : Action A := fun s => (f s, s, []).
Definition modify (f : Hook -> Hook) : Action unit := fun s => (tt, f s, []).
Definition skip : Action unit := ret tt.

(** The state after an action, and the effects it emitted. *)
Definition after {A} (m : Action A) (s : Hook) : Hook := snd (fst (m s)).
Definition effects {A} (m : Action A) (s : Hook) : list Effect := snd (m s).

(** How a function body ends. *)
Inductive Completion : Type := normal | thrown.

(** JavaScript truthiness of a string, and of an optional string. *)
Definition truthy (s : string) : bool := negb (String.eqb s EmptyString).
Definition truthy_opt (s : option string) : bool :=
  match s with Some x => truthy x | None => false end.

(** *** The environment of a hook instance

    The options the hook is mounted with, and the platform functions whose
    results the hook only passes on.  [atob] and [resampleAudio] return
    [None] where they throw. *)
Record Env : Type := mkEnv {
  websocketUrl : string;
  visualizerElementId : option string;
  atob : string -> option (list Z);
  btoa : list Z -> string;
  resampleAudio : list Q -> Z -> Z -> option (list Q)
}.

Definition BUFFER_DURATION : Z := 1.
Definition bufferSize : Z := SAMPLE_RATE * CHANNELS * BUFFER_DURATION.

(** [audioBufferRef.current.reduce((acc, chunk) => acc + chunk.length, 0)]. *)
Definition queuedSamples (queue : list (list Q)) : Z :=
  fold_left (fun acc chunk => acc + Z.of_nat (length chunk)) queue 0.

(** The dequeue loop of [playNextChunk]:
    [while (queue.length > 0 && totalLength < bufferSize) { chunk = queue.shift(); ... }],
    returning the chunks taken and the queue left. *)
Fixpoint takeChunks (queue : list (list Q)) (totalLength : Z)
  : list (list Q) * list (list Q) :=
  match queue with
  | [] => ([], [])
  | chunk :: rest =>
      if totalLength <? bufferSize then
        let '(chunks, remaining) :=
          takeChunks rest (totalLength + Z.of_nat (length chunk)) in
        (chunk :: chunks, remaining)
      else ([], queue)
  end.

(** [ws.close()]: the call is recorded and an open or connecting socket
    starts closing. *)
Definition closing (ws : WebSocket) : WebSocket :=
  match readyState ws with
  | OPEN | CONNECTING => mkWebSocket CLOSING (handlers ws)
  | _ => ws
  end.

Definition wsClose (w : nat) : Action unit :=
  emit (WsClose w) ;;
  modify (fun s => set_sockets (alter closing w (sockets s)) s).

(** [websocketRef.current?.readyState]. *)
Definition currentReadyState (s : Hook) : option ReadyState :=
  match websocketRef s with
  | Some w => readyState <$> sockets s !! w
  | None => None
  end.

(** [websocketRef.current?.send(JSON.stringify(frame))].  The call is
    recorded as made; the exception of [send] on a socket that is still
    CONNECTING is not followed. *)
Definition sendCurrent (frame : OutFrame) : Action unit :=
  ws <- read websocketRef ;;
  match ws with
  | Some w => emit (WsSend w frame)
  | None => skip
  end.

(** [websocketRef.current?.close()]. *)
Definition closeCurrent : Action unit :=
  ws <- read websocketRef ;;
  match ws with
  | Some w => wsClose w
  | None => skip
  end.

(** [new WebSocket(websocketUrl); websocketRef.current = ws], with the
    handlers installed by [h]. *)
Definition newWebSocket (h : Handlers) : Action unit :=
  w <- read (fun s => length (sockets s)) ;;
  emit (NewWebSocket w) ;;
  modify (fun s => set_sockets (sockets s ++ [mkWebSocket CONNECTING h]) s) ;;
  modify (set_websocketRef (Some w)).

Section WithEnv.

Context (env : Env).

Definition getOrCreateAudioContext : Action unit :=
  ctx <- read audioContextRef ;;
  if ctx then skip
  else (emit NewAudioContext ;; modify (set_audioContextRef true)).

Definition initializeVisualizer : Action unit :=
  analyzer <- read analyzerRef ;;
  cleaned <- read isCleanedUp ;;
  if truthy_opt (visualizerElementId env) && negb analyzer && negb cleaned
  then (emit AnalyzerNew ;; modify (set_analyzerRef true))
  else if analyzer then emit AnalyzerConnectInput else skip.

(** [resetAudioInput(streamRef.current)]. *)
Definition resetAudioInput : Action unit :=
  stream <- read streamRef ;;
  match stream with
  | Some st => emit (TracksStop st)
  | None => skip
  end.

(** [setupAudioStream]; [userMedia] is the outcome of
    [navigator.mediaDevices.getUserMedia]: a stream, or a rejection. *)
Definition setupAudioStream (userMedia : option nat) : Action Completion :=
  connected <- read isAudioNodesConnected ;;
  if connected then ret normal
  else
    resetAudioInput ;;
    match userMedia with
    | Some st =>
        modify (set_streamRef (Some st)) ;;
        getOrCreateAudioContext ;;
        initializeVisualizer ;;
        modify (set_isAudioNodesConnected true) ;;
        ret normal
    | None =>
        emit (LogError "Error setting up audio stream:") ;;
        emit OnException ;;
        ret thrown
    end.

(** [startProcessing]; [moduleLoaded] is the outcome of
    [audioContext.audioWorklet.addModule]. *)
Definition startProcessing (moduleLoaded : bool) : Action unit :=
  stream <- read streamRef ;;
  match stream with
  | None => skip
  | Some _ =>
      getOrCreateAudioContext ;;
      if moduleLoaded then
        modify (set_sourceNode true) ;;
        modify (set_audioWorkletNode true)
      else
        emit (LogError "Failed to start audio processing:") ;;
        emit OnException
  end.

(** **** The awaits of [setupAudioStream] and [startProcessing]

    An [async] function gives control back at an [await]: events that arrive
    while [getUserMedia] or [addModule] is pending are handled before the
    function resumes.  The two functions are cut at their await. *)

(** [setupAudioStream] up to [await navigator.mediaDevices.getUserMedia]:
    [true] when the call is made and awaited. *)
Definition setupAudioStream_request : Action bool :=
  connected <- read isAudioNodesConnected ;;
  if connected then ret false
  else resetAudioInput ;; ret true.

(** [setupAudioStream] from the settlement of [getUserMedia]. *)
Definition setupAudioStream_settled (userMedia : option nat)
  : Action Completion :=
  match userMedia with
  | Some st =>
      modify (set_streamRef (Some st)) ;;
      getOrCreateAudioContext ;;
      initializeVisualizer ;;
      modify (set_isAudioNodesConnected true) ;;
      ret normal
  | None =>
      emit (LogError "Error setting up audio stream:") ;;
      emit OnException ;;
      ret thrown
  end.

(** [startProcessing] up to [await audioContext.audioWorklet.addModule]:
    [true] when the call is made and awaited. *)
Definition startProcessing_request : Action bool :=
  stream <- read streamRef ;;
  match stream with
  | None => ret false
  | Some _ => getOrCreateAudioContext ;; ret true
  end.

(** [startProcessing] from the settlement of [addModule].
    [createMediaStreamSource(streamRef.current)] throws a TypeError, caught
    with the rest, when the stream has been cleared in the meantime. *)
Definition startProcessing_settled (moduleLoaded : bool) : Action unit :=
  if moduleLoaded then
    stream <- read streamRef ;;
    match stream with
    | Some _ =>
        modify (set_sourceNode true) ;;
        modify (set_audioWorkletNode true)
    | None =>
        emit (LogError "Failed to start audio processing:") ;;
        emit OnException
    end
  else
    emit (LogError "Failed to start audio processing:") ;;
    emit OnException.

Definition stopProcessing : Action unit :=
  (node <- read audioWorkletNode ;;
   if node then emit WorkletDisconnect ;; modify (set_audioWorkletNode false)
   else skip) ;;
  (node <- read sourceNode ;;
   if node then emit CaptureSourceDisconnect ;; modify (set_sourceNode false)
   else skip).

(** [getBase64Audio]. *)
Definition getBase64Audio (audioData : list Q) : string :=
  btoa env (linearToMuLaw (floatTo16BitPCM audioData)).

(** [audioWorkletNode.port.onmessage]. *)
Definition workletMessage (data : list Q) (timestamp : Q) : Action unit :=
  ws <- read websocketRef ;;
  state <- read currentReadyState ;;
  match ws, state with
  | Some w, Some OPEN => emit (WsSend w (media_frame (getBase64Audio data) timestamp))
  | _, _ => skip
  end.

(** [playNextChunk].  [audioContext.createBuffer(1, 0, SAMPLE_RATE)] throws
    (a buffer has at least one frame): with no sample to play the function
    ends there, after the flags and the queue have been updated. *)
Definition playNextChunk : Action Completion :=
  getOrCreateAudioContext ;;
  playing <- read isPlayingAudio ;;
  if playing then ret normal
  else
    queue <- read audioBufferRef ;;
    audioData <-
      match queue with
      | [] =>
          modify (set_isPlayingAudio false) ;;
          modify (set_isPlaying false) ;;
          sendCurrent (TTS_PLAYING false) ;;
          modify (set_lastSentTTSEvent false) ;;
          rate <- read backendSampleRate ;;
          let silenceLength := rate * BUFFER_DURATION * 2 in
          ret (repeat 0%Q (Z.to_nat silenceLength))
      | _ :: _ =>
          (sent <- read lastSentTTSEvent ;;
           if sent then skip
           else (sendCurrent (TTS_PLAYING true) ;;
                 modify (set_lastSentTTSEvent true))) ;;
          modify (set_isPlayingAudio true) ;;
          modify (set_isPlaying true) ;;
          let '(chunks, remaining) := takeChunks queue 0 in
          modify (set_audioBufferRef remaining) ;;
          ret (concat chunks)
      end ;;
    match audioData with
    | [] => ret thrown
    | _ :: _ =>
        initializeVisualizer ;;
        emit (BufferSourceStart audioData) ;;
        modify (set_sourceNodeRef true) ;;
        modify (set_isPlayingRef true) ;;
        ret normal
    end.

(** [source.onended]; an exception of [playNextChunk] ends the callback. *)
Definition sourceEnded : Action unit :=
  modify (set_isPlayingAudio false) ;;
  queue <- read audioBufferRef ;;
  match queue with
  | _ :: _ => playNextChunk ;; skip
  | [] =>
      modify (set_isPlaying false) ;;
      sendCurrent (TTS_PLAYING false) ;;
      modify (set_lastSentTTSEvent false) ;;
      stop <- read isStopReceived ;;
      if stop then closeCurrent else skip
  end.

(** The decoding steps of [processAudioChunk]; [None] when one of them
    throws. *)
Definition decodeChunk (rate : Z) (payload : string) : option (list Q) :=
  match atob env payload with
  | None => None
  | Some bytes =>
      match bytesToPCM16 bytes with
      | None => None
      | Some pcm16Data =>
          let float32Data := convertPCMDataToFloat32 pcm16Data in
          if rate =? SAMPLE_RATE then Some float32Data
          else resampleAudio env float32Data rate SAMPLE_RATE
      end
  end.

Definition processAudioChunk (payload : string) : Action unit :=
  getOrCreateAudioContext ;;
  rate <- read backendSampleRate ;;
  match decodeChunk rate payload with
  | Some rightSampled =>
      modify (fun s => set_audioBufferRef (audioBufferRef s ++ [rightSampled]) s) ;;
      queue <- read audioBufferRef ;;
      if bufferSize <=? queuedSamples queue then
        played <- playNextChunk ;;
        match played with
        | normal => skip
        | thrown => emit (LogError "Error processing audio chunk:")
        end
      else skip
  | None => emit (LogError "Error processing audio chunk:")
  end.

Definition isBarge (ev : string) : bool := String.eqb ev "barge" || String.eqb ev "BARGE".

(** [processAudioMessage]; [now] is [Date.now()]. *)
Definition processAudioMessage (message : ISocketEventData) (now : Z)
  : Action unit :=
  if String.eqb (event message) "media" && truthy_opt (payload message) then
    (receivedAt <- read chunkReceivedAt ;;
     if receivedAt =? 0 then
       modify (set_chunkReceivedAt now) ;; emit (LogInfo "Chunk received at:")
     else skip) ;;
    modify (set_backendSampleRate (default SAMPLE_RATE (sample_rate message))) ;;
    processAudioChunk (default EmptyString (payload message))
  else if isBarge (event message) then
    emit (LogInfo "Barged") ;;
    modify (set_audioBufferRef [])
  else if String.eqb (event message) "EOC" then
    emit (LogInfo "EOC event occurred") ;;
    sendCurrent EOC_frame
  else if String.eqb (event message) "stop" then
    emit (LogInfo "Stop event occurred") ;;
    state <- read currentReadyState ;;
    match state with
    | Some OPEN => modify (set_isStopReceived true)
    | _ => skip
    end
  else emit (LogInfo "Unhandled message type:").

Definition cleanup (source : CloseSource) : Action unit :=
  cleaned <- read isCleanedUp ;;
  if cleaned then skip
  else
    modify (set_isCleanedUp true) ;;
    stopProcessing ;;
    (ws <- read websocketRef ;;
     match ws with
     | Some w =>
         (state <- read currentReadyState ;;
          match state with
          | Some OPEN | Some CONNECTING => wsClose w
          | _ => skip
          end) ;;
         modify (set_websocketRef None)
     | None => skip
     end) ;;
    (analyzer <- read analyzerRef ;;
     if analyzer then emit AnalyzerStop ;; emit AnalyzerDestroy else skip) ;;
    (ctx <- read audioContextRef ;;
     if ctx then emit AudioContextClose ;; modify (set_audioContextRef false)
     else skip) ;;
    (source <- read sourceNodeRef ;;
     if source then
       emit BufferSourceStop ;; emit BufferSourceDisconnect ;;
       modify (set_sourceNodeRef false)
     else skip) ;;
    (stream <- read streamRef ;;
     match stream with
     | Some st => emit (TracksStop st) ;; modify (set_streamRef None)
     | None => skip
     end) ;;
    modify (set_audioBufferRef []) ;;
    modify (set_isPlayingRef false) ;;
    modify (set_isAudioNodesConnected false) ;;
    modify (set_isFirstChunk true) ;;
    modify (set_isPlayingAudio false) ;;
    modify (set_isStopReceived false) ;;
    modify (set_isPlaying false) ;;
    modify (set_isConnected false) ;;
    emit (OnClose source).

Definition connect : Action unit :=
  ws <- read websocketRef ;;
  cleaned <- read isCleanedUp ;;
  connected <- read isConnected ;;
  if negb (truthy (websocketUrl env)) || bool_decide (is_Some ws)
     || cleaned || connected
  then skip
  else
    modify (set_isCleanedUp false) ;;
    modify (set_isFirstChunk true) ;;
    newWebSocket byConnect.

(** **** The awaits of [ws.onopen] *)

(** Where an [async] handler stands when it gives control back. *)
Inductive Suspended : Type := finished | awaitsUserMedia | awaitsModule.

(** The end of [ws.onopen]: the start frame and, in [reconnect]'s handler,
    the callback. *)
Definition onopen_finish (w : nat) (h : Handlers) : Action unit :=
  emit (WsSend w start_frame) ;;
  match h with
  | byReconnect true => emit OnConnectionSuccess
  | _ => skip
  end.

(** [ws.onopen] from the return of [setupAudioStream] to the await of
    [startProcessing], or to its end. *)
Definition onopen_capture (w : nat) (h : Handlers) : Action Suspended :=
  awaited <- startProcessing_request ;;
  if awaited then ret awaitsModule
  else onopen_finish w h ;; ret finished.

(** [ws.onopen] from the open event to its first pending await.  The
    marker is tested here and nowhere later in the handler. *)
Definition onopen_opened (w : nat) (h : Handlers) : Action Suspended :=
  cleaned <- read isCleanedUp ;;
  if cleaned then wsClose w ;; ret finished
  else
    modify (set_isConnected true) ;;
    awaited <- setupAudioStream_request ;;
    if awaited then ret awaitsUserMedia
    else onopen_capture w h.

(** [ws.onopen] resumed when [getUserMedia] settles. *)
Definition onopen_userMedia (w : nat) (h : Handlers)
    (userMedia : option nat) : Action Suspended :=
  setup <- setupAudioStream_settled userMedia ;;
  match setup with
  | thrown => ret finished
  | normal => onopen_capture w h
  end.

(** [ws.onopen] resumed when [addModule] settles. *)
Definition onopen_module (w : nat) (h : Handlers) (moduleLoaded : bool)
  : Action unit :=
  startProcessing_settled moduleLoaded ;;
  onopen_finish w h.

(** The handler run through, each await resumed before anything else
    happens. *)
Definition onopen_uninterrupted (w : nat) (h : Handlers)
    (userMedia : option nat) (moduleLoaded : bool) : Action unit :=
  first <- onopen_opened w h ;;
  second <- match first with
            | awaitsUserMedia => onopen_userMedia w h userMedia
            | _ => ret first
            end ;;
  match second with
  | awaitsModule => onopen_module w h moduleLoaded
  | _ => skip
  end.

(** [ws.onopen] of socket [w], as installed by [h], when nothing happens
    between the open event and the settlement of the two awaited calls: they
    are run to completion in place, with the outcomes given
    ([onopen_uninterrupted] is the same action). *)
Definition onopen (w : nat) (h : Handlers)
    (userMedia : option nat) (moduleLoaded : bool) : Action unit :=
  cleaned <- read isCleanedUp ;;
  if cleaned then wsClose w
  else
    modify (set_isConnected true) ;;
    setup <- setupAudioStream userMedia ;;
    match setup with
    | thrown => skip
    | normal =>
        startProcessing moduleLoaded ;;
        emit (WsSend w start_frame) ;;
        match h with
        | byReconnect true => emit OnConnectionSuccess
        | _ => skip
        end
    end.

(** [ws.onmessage]. *)
Definition onmessage (h : Handlers) (data : Parsed) (now : Z) : Action unit :=
  cleaned <- read isCleanedUp ;;
  if cleaned then skip
  else
    match data with
    | parsed message => processAudioMessage message now
    | parsed_falsy => skip
    | parse_error =>
        emit (LogError "Error parsing websocket message:") ;;
        match h with
        | byReconnect _ => emit OnException
        | byConnect => skip
        end
    end.

(** [ws.onclose]. *)
Definition onclose (reason : string) : Action unit :=
  (if String.eqb reason "LINK_EXPIRED" then
     emit (LogInfo "Link expired") ;; emit LocationReload
   else skip) ;;
  (cleaned <- read isCleanedUp ;;
   if cleaned then skip else cleanup server) ;;
  stopProcessing.

(** [ws.onerror]. *)
Definition onerror : Action unit :=
  emit (LogError "WebSocket error:") ;;
  emit OnException ;;
  cleaned <- read isCleanedUp ;;
  if cleaned then skip else cleanup server.

Definition disconnect : Action unit := cleanup client.

Definition reconnect (onConnectionSuccess : bool) : Action unit :=
  closeCurrent ;;
  modify (set_websocketRef None) ;;
  modify (set_isCleanedUp false) ;;
  modify (set_isFirstChunk true) ;;
  modify (set_isPlayingRef false) ;;
  modify (set_isAudioNodesConnected false) ;;
  modify (set_isPlayingAudio false) ;;
  modify (set_isStopReceived false) ;;
  modify (set_isConnected false) ;;
  modify (set_isPlaying false) ;;
  modify (set_audioBufferRef []) ;;
  (ctx <- read audioContextRef ;;
   if ctx then emit AudioContextClose ;; modify (set_audioContextRef false)
   else skip) ;;
  (source <- read sourceNodeRef ;;
   if source then
     emit BufferSourceStop ;; emit BufferSourceDisconnect ;;
     modify (set_sourceNodeRef false)
   else skip) ;;
  (analyzer <- read analyzerRef ;;
   if analyzer then
     emit AnalyzerStop ;; emit AnalyzerDestroy ;; modify (set_analyzerRef false)
   else skip) ;;
  (stream <- read streamRef ;;
   match stream with
   | Some st => emit (TracksStop st) ;; modify (set_streamRef None)
   | None => skip
   end) ;;
  stopProcessing ;;
  if negb (truthy (websocketUrl env)) then
    emit (LogError "Cannot reconnect: websocketUrl is required")
  else newWebSocket (byReconnect onConnectionSuccess).

(** *** The event loop

    What can happen to a mounted hook: a call of its API, an event of a
    socket it created, the end of a playback buffer, a chunk from the
    capture worklet.  Socket events carry what the browser supplies with
    them.

    [ws_open] and [call_startRecording] are the open event and the
    [startRecording()] call whose awaited promises settle before anything
    else happens.  The last five events are the same two cut at their
    awaits, for the runs in which something happens in between: the open
    event up to the first pending await ([ws_opens]), the settlement of
    [getUserMedia] and of [addModule] in the open handler of a socket, the
    [startRecording()] call up to its await and the settlement of its
    [addModule].  A settlement belongs to a handler suspended at that await;
    nothing here keeps track of the handlers that are, and what is proved of
    all events holds of the settlements in any state. *)
Inductive Event : Type :=
| call_connect
| call_disconnect
| call_reconnect (onConnectionSuccess : bool)
| call_startRecording (moduleLoaded : bool)
| call_stopRecording
| ws_open (w : nat) (userMedia : option nat) (moduleLoaded : bool)
| ws_message (w : nat) (data : Parsed) (now : Z)
| ws_close (w : nat) (reason : string)
| ws_error (w : nat)
| source_ended
| worklet_message (data : list Q) (timestamp : Q)
| ws_opens (w : nat)
| userMedia_settles (w : nat) (userMedia : option nat)
| module_settles (w : nat) (moduleLoaded : bool)
| startRecording_begins
| startRecording_settles (moduleLoaded : bool).

(** The browser sets [readyState] before it dispatches [open] and [close]. *)
Definition setReadyState (w : nat) (r : ReadyState) : Action unit :=
  modify (fun s =>
    set_sockets (alter (fun ws => mkWebSocket r (handlers ws)) w (sockets s)) s).

(** An event of socket [w] runs the handler installed on [w]; there is no
    event for a socket that was never created. *)
Definition onSocket (w : nat) (k : Handlers -> Action unit) : Action unit :=
  ws <- read (fun s => sockets s !! w) ;;
  match ws with
  | Some x => k (handlers x)
  | None => skip
  end.

Definition handle (e : Event) : Action unit :=
  match e with
  | call_connect => connect
  | call_disconnect => disconnect
  | call_reconnect cb => reconnect cb
  | call_startRecording moduleLoaded => startProcessing moduleLoaded
  | call_stopRecording => stopProcessing
  | ws_open w userMedia moduleLoaded =>
      onSocket w (fun h =>
        setReadyState w OPEN ;; onopen w h userMedia moduleLoaded)
  | ws_message w data now => onSocket w (fun h => onmessage h data now)
  | ws_close w reason =>
      onSocket w (fun _ => setReadyState w CLOSED ;; onclose reason)
  | ws_error w => onSocket w (fun _ => onerror)
  | source_ended => sourceEnded
  | worklet_message data timestamp => workletMessage data timestamp
  | ws_opens w =>
      onSocket w (fun h => setReadyState w OPEN ;; onopen_opened w h ;; skip)
  | userMedia_settles w userMedia =>
      onSocket w (fun h => onopen_userMedia w h userMedia ;; skip)
  | module_settles w moduleLoaded =>
      onSocket w (fun h => onopen_module w h moduleLoaded)
  | startRecording_begins => startProcessing_request ;; skip
  | startRecording_settles moduleLoaded => startProcessing_settled moduleLoaded
  end.

Fixpoint run (events : list Event) : Action unit :=
  match events with
  | [] => skip
  | e :: rest => handle e ;; run rest
  end.

End WithEnv.

(** *** Classes of effects and of events *)

Definition isNewWebSocket (e : Effect) : bool :=
  match e with NewWebSocket _ => true | _ => false end.

Definition isWsClose (e : Effect) : bool :=
  match e with WsClose _ => true | _ => false end.

Definition isWsSend (e : Effect) : bool :=
  match e with WsSend _ _ => true | _ => false end.

Definition isBufferSourceStart (e : Effect) : bool :=
  match e with BufferSourceStart _ => true | _ => false end.

Definition isOnClose (e : Effect) : bool :=
  match e with OnClose _ => true | _ => false end.

(** The calls that release a resource of the connection, and the closure
    notification: what the teardown sequence consists of. *)
Definition isTeardown (e : Effect) : bool :=
  match e with
  | WorkletDisconnect | CaptureSourceDisconnect
  | WsClose _
  | AnalyzerStop | AnalyzerDestroy
  | AudioContextClose
  | BufferSourceStop | BufferSourceDisconnect
  | TracksStop _
  | OnClose _ => true
  | _ => false
  end.

(** The signals that ask for teardown: [disconnect()], and the close and
    error events of a socket. *)
Definition isTeardownSignal (e : Event) : bool :=
  match e with
  | call_disconnect | ws_close _ _ | ws_error _ => true
  | _ => false
  end.

Definition isReconnect (e : Event) : bool :=
  match e with call_reconnect _ => true | _ => false end.


(** An event that can be delivered in state [s]: a socket event needs its
    socket. *)
Definition deliverable (s : Hook) (e : Event) : bool :=
  match e with
  | ws_open w _ _ | ws_message w _ _ | ws_close w _ | ws_error w
  | ws_opens w | userMedia_settles w _ | module_settles w _ =>
      bool_decide (is_Some (sockets s !! w))
  | _ => true
  end.

(** *** Relations between the two ends of an action *)

(** The value an action returns. *)
Definition value {A} (m : Action A) (s : Hook) : A := fst (fst (m s)).

(** A relation between the state before an action, the state after it and
    the effects in between that is kept by doing nothing and by running one
    action after another. *)
Class Composable (R : Hook -> Hook -> list Effect -> Prop) : Prop := {
  composable_refl : forall s, R s s [];
  composable_trans : forall s1 s2 s3 o1 o2,
      R s1 s2 o1 -> R s2 s3 o2 -> R s1 s3 (o1 ++ o2)
}.

(** The action [m] relates every state to its outcome. *)
Definition holds {A} (R : Hook -> Hook -> list Effect -> Prop)
    (m : Action A) : Prop :=
  forall s, R s (after m s) (effects m s).

(** An invariant [I] of the state is kept, and no effect of the class [X]
    is emitted. *)
Definition keeps (I : Hook -> Prop) (X : Effect -> bool)
  : Hook -> Hook -> list Effect -> Prop :=
  fun s s' o => I s -> I s' /\ List.filter X o = [].

(** *** The teardown sequence, as the specification lists it

    Stop the capture pipeline; close the transport if it is still open or
    connecting; stop and release the playback and visual sinks; release the
    capture device; notify the caller of the closure and of its cause.
    Each entry is a call made only when the resource is held in [s]. *)
Definition teardownSequence (s : Hook) (source : CloseSource) : list Effect :=
  (if audioWorkletNode s then [WorkletDisconnect] else [])
  ++ (if sourceNode s then [CaptureSourceDisconnect] else [])
  ++ match websocketRef s, currentReadyState s with
     | Some w, Some OPEN | Some w, Some CONNECTING => [WsClose w]
     | _, _ => []
     end
  ++ (if analyzerRef s then [AnalyzerStop; AnalyzerDestroy] else [])
  ++ (if audioContextRef s then [AudioContextClose] else [])
  ++ (if sourceNodeRef s then [BufferSourceStop; BufferSourceDisconnect] else [])
  ++ match streamRef s with Some st => [TracksStop st] | None => [] end
  ++ [OnClose source].

(** The state in which a teardown signal finds the hook (the browser has
    marked the socket closed before it delivers [close]), and the cause the
    signal reports. *)
Definition signalState (e : Event) (s : Hook) : Hook :=
  match e with
  | ws_close w _ => after (setReadyState w CLOSED) s
  | _ => s
  end.

Definition signalSource (e : Event) : CloseSource :=
  match e with
  | call_disconnect => client
  | _ => server
  end.

(** A hook after teardown: the marker is set, no resource is held, the
    per-connection buffers and flags are cleared. *)
Definition tornDownState (s : Hook) : Prop :=
  isCleanedUp s = true
  /\ audioWorkletNode s = false /\ sourceNode s = false
  /\ websocketRef s = None
  /\ audioContextRef s = false /\ sourceNodeRef s = false
  /\ streamRef s = None
  /\ audioBufferRef s = []
  /\ isPlayingAudio s = false /\ isStopReceived s = false
  /\ isPlaying s = false /\ isConnected s = false.

(** The marker is set and the number of sockets is [n]. *)
Definition tornDown (n : nat) (s : Hook) : Prop :=
  isCleanedUp s = true /\ length (sockets s) = n.

(** The state [cleanup] leaves when it runs its body in [s]: the socket of
    [websocketRef], if open or connecting, has started closing; the refs
    are cleared and the flags reset.  [backendSampleRate],
    [lastSentTTSEvent], [chunkReceivedAt] and [analyzerRef] are not
    touched. *)
Definition afterTeardown (s : Hook) : Hook :=
  {| sockets :=
       match websocketRef s, currentReadyState s with
       | Some w, Some OPEN | Some w, Some CONNECTING =>
           alter closing w (sockets s)
       | _, _ => sockets s
       end;
     websocketRef := None;
     audioContextRef := false;
     sourceNodeRef := false;
     isPlayingRef := false;
     isFirstChunk := true;
     streamRef := None;
     isAudioNodesConnected := false;
     isCleanedUp := true;
     backendSampleRate := backendSampleRate s;
     isStopReceived := false;
     lastSentTTSEvent := lastSentTTSEvent s;
     chunkReceivedAt := chunkReceivedAt s;
     analyzerRef := analyzerRef s;
     isConnected := false;
     isPlaying := false;
     isPlayingAudio := false;
     audioBufferRef := [];
     audioWorkletNode := false;
     sourceNode := false |}.

(** *** Playback: what an event enqueues, and when the queue has drained *)

(** The chunk a media frame adds to the queue, if it decodes. *)
Definition messageChunk (env : Env) (message : ISocketEventData)
  : option (list Q) :=
  if String.eqb (event message) "media" && truthy_opt (payload message)
  then decodeChunk env (default SAMPLE_RATE (sample_rate message))
                   (default EmptyString (payload message))
  else None.

Definition eventChunks (env : Env) (e : Event) : list (list Q) :=
  match e with
  | ws_message _ (parsed message) _ => option_list (messageChunk env message)
  | _ => []
  end.


(** The state once a stop frame, then the events [events], have been
    handled. *)
Definition afterStop (env : Env) (message : ISocketEventData) (now : Z)
    (events : list Event) (s : Hook) : Hook :=
  after (run env events) (after (processAudioMessage env message now) s).

(** A stop frame has been taken and [w] is the current socket. *)
Definition stopPending (w : nat) (s : Hook) : Prop :=
  isStopReceived s = true /\ websocketRef s = Some w.

(** The queue after is drawn from the queue before, in order. *)
Definition shrinks : Hook -> Hook -> list Effect -> Prop :=
  fun s s' _ => sublist (audioBufferRef s') (audioBufferRef s).

(** The queue is left as it is. *)
Definition sameQueue : Hook -> Hook -> list Effect -> Prop :=
  fun s s' _ => audioBufferRef s' = audioBufferRef s.

(** *** Further classes of events and effects *)

(** An inbound frame. *)
Definition isInbound (e : Event) : bool :=
  match e with ws_message _ _ _ => true | _ => false end.

(** After a teardown: the marker is set, and yet the stream [st] and an
    audio context are held; no capture node is. *)
Definition heldAfterTeardown (st : nat) (s : Hook) : Prop :=
  isCleanedUp s = true
  /\ streamRef s = Some st /\ audioContextRef s = true
  /\ audioWorkletNode s = false /\ sourceNode s = false.

(** The open handler of a socket resumed after one of its awaits. *)
Definition isResumption (e : Event) : bool :=
  match e with
  | userMedia_settles _ _ | module_settles _ _ => true
  | _ => false
  end.

(** What a torn-down hook may still do: close a socket that opens late,
    log, report a socket error, reload on an expired link.  Every other
    effect is activity. *)
Definition isActivity (e : Effect) : bool :=
  match e with
  | WsClose _ | LogInfo _ | LogError _ | OnException | LocationReload => false
  | _ => true
  end.

(** The audio contexts created and closed by a list of effects, starting
    with a context live or not: [None] if a context is created while one is
    live or closed while none is, else whether one is live at the end. *)
Fixpoint contextLive (live : bool) (o : list Effect) : option bool :=
  match o with
  | [] => Some live
  | NewAudioContext :: rest => if live then None else contextLive true rest
  | AudioContextClose :: rest => if live then contextLive false rest else None
  | _ :: rest => contextLive live rest
  end.

(** The effects account for the audio context of the state. *)
Definition tracksContext : Hook -> Hook -> list Effect -> Prop :=
  fun s s' o => contextLive (audioContextRef s) o = Some (audioContextRef s').


(** The callbacks of the hook's caller. *)
Definition isCallback (e : Effect) : bool :=
  match e with
  | OnClose _ | OnException | OnConnectionSuccess => true
  | _ => false
  end.

(** *** Example environment *)

(** An environment for the examples: [atob] yields the four bytes of the
    two PCM16 samples 0 and 1. *)
Definition exampleEnv : Env :=
  {| websocketUrl := "wss://voice.example/ws";
     visualizerElementId := None;
     atob := fun _ => Some [0; 0; 1; 0];
     btoa := fun _ => EmptyString;
     resampleAudio := fun audioData _ _ => Some audioData |}.

(** A live connection: [connect()], then the socket opens, the microphone
    is granted (stream 7) and the worklet loads. *)
Definition liveState : Hook :=
  after (run exampleEnv [call_connect; ws_open 0 (Some 7%nat) true]) initial.

(** The same connection after [disconnect()]. *)
Definition closedState : Hook := after disconnect liveState.

(** A connection opened by [connect()] and superseded by [reconnect()],
    whose socket 1 has opened (stream 8). *)
Definition reconnectedState : Hook :=
  after (run exampleEnv [call_reconnect false; ws_open 1 (Some 8%nat) true])
        liveState.

(** [connect()] has been called; socket 0 has not opened yet. *)
Definition connectingState : Hook := after (connect exampleEnv) initial.

(** [connect()], then socket 0 opens and [getUserMedia] rejects. *)
Definition failedAcquisition : list Event :=
  [call_connect; ws_open 0 None true].

(** Teardown signals following a first one. *)
Definition teardownSignals : list Event :=
  [call_disconnect; ws_close 0 EmptyString; ws_error 0].

(** Events after a teardown, none of them [reconnect()]. *)
Definition laterEvents : list Event :=
  [call_connect; ws_close 0 EmptyString; call_connect; source_ended].

(** The close event of socket 0. *)
Definition staleClose : Event := ws_close 0 EmptyString.

(** Inbound frames. *)
Definition bargeMessage : ISocketEventData := mkMessage "barge" None None.
Definition stopMessage : ISocketEventData := mkMessage "stop" None None.
Definition mediaMessage : ISocketEventData :=
  mkMessage "media" (Some "AAABAA==") None.

Definition bargeEvent : Event := ws_message 0 (parsed bargeMessage) 3.

(** A live connection with one short chunk queued (below the playback
    threshold). *)
Definition queuedState : Hook :=
  after (processAudioMessage exampleEnv mediaMessage 1) liveState.

(** The same state once playback of the queued chunk has started. *)
Definition playingState : Hook := after (playNextChunk exampleEnv) queuedState.

(** Frames arriving during playback. *)
Definition inboundFrames : list Event :=
  [ws_message 0 (parsed mediaMessage) 2; bargeEvent;
   ws_message 0 parse_error 4; ws_message 0 (parsed stopMessage) 5].

(** A media frame with one second of silence: 29400 groups [AAAA] are the
    base64 text of 88200 zero bytes, 44100 samples. *)
Definition secondPayload : string :=
  String.concat EmptyString (repeat "AAAA"%string (Z.to_nat 29400)).

Definition secondMessage : ISocketEventData :=
  mkMessage "media" (Some secondPayload) None.

(** An environment whose [atob] gives the bytes of that frame. *)
Definition secondEnv : Env :=
  {| websocketUrl := "wss://voice.example/ws";
     visualizerElementId := None;
     atob := fun _ => Some (repeat 0 (Z.to_nat 88200));
     btoa := fun _ => EmptyString;
     resampleAudio := fun audioData _ _ => Some audioData |}.

(** A live connection on which one such frame has arrived: its second of
    audio is playing and the queue is empty. *)
Definition playedState : Hook :=
  after (run secondEnv [call_connect; ws_open 0 (Some 7%nat) true;
                        ws_message 0 (parsed secondMessage) 1])
        initial.

(** [connect()], socket 0 opens and its handler waits for [getUserMedia];
    [disconnect()] is called while the permission prompt is up. *)
Definition closedWhilePrompting : Hook :=
  after (run exampleEnv [call_connect; ws_opens 0; call_disconnect]) initial.

End Hook.

(* ===================================================================== *)
(** ** audio-processor.js *)
(* ===================================================================== *)

Module Worklet.

(** The capture worklet: [bufferSize], the [Float32Array] [buffer] and the
    fill cursor [bufferIndex]. *)
Record AudioProcessor : Type := mkAudioProcessor {
  bufferSize : nat;
  buffer : list Q;
  bufferIndex : nat
}.

(** A message posted to the main thread:
    [{ type: 'audio-data', data, timestamp }]. *)
Record AudioData : Type := mkAudioData {
  data : list Q;
  timestamp : Q
}.

(** The constructor; [sampleRate] is [options.processorOptions.sampleRate],
    44100 when absent.  [None] is the RangeError of [new Float32Array] on a
    negative size. *)
Definition construct (sampleRate : option Z) : option AudioProcessor :=
  let sampleRate := default 44100 sampleRate in
  let size := sampleRate * 400 / 1000 in
  if size <? 0 then None
  else Some {| bufferSize := Z.to_nat size;
               buffer := repeat 0%Q (Z.to_nat size);
               bufferIndex := 0 |}.

(** The loop of [process] over the samples of the first channel.  A store
    past the end of a typed array does nothing; [buffer.slice()] is a copy
    of the buffer. *)
Fixpoint processSamples (samples : list Q) (currentTime : Q)
    (p : AudioProcessor) : AudioProcessor * list AudioData :=
  match samples with
  | [] => (p, [])
  | sample :: rest =>
      let filled := <[bufferIndex p := sample]> (buffer p) in
      let next := S (bufferIndex p) in
      if (bufferSize p <=? next)%nat then
        let '(p', posted) :=
          processSamples rest currentTime
            {| bufferSize := bufferSize p; buffer := filled; bufferIndex := 0 |} in
        (p', {| data := filled; timestamp := currentTime |} :: posted)
      else
        processSamples rest currentTime
          {| bufferSize := bufferSize p; buffer := filled; bufferIndex := next |}
  end.

(** [process(inputs)]; [input] is [inputs[0][0]], absent when the node has
    no input. *)
Definition process (input : option (list Q)) (currentTime : Q)
    (p : AudioProcessor) : AudioProcessor * list AudioData :=
  match input with
  | None => (p, [])
  | Some samples => processSamples samples currentTime p
  end.

(** The calls of [process], one per render quantum, each with its input
    and the [currentTime] of the quantum; the messages posted, in order. *)
Fixpoint render (quanta : list (option (list Q) * Q)) (p : AudioProcessor)
  : AudioProcessor * list AudioData :=
  match quanta with
  | [] => (p, [])
  | (input, currentTime) :: rest =>
      let '(p1, posted1) := process input currentTime p in
      let '(p2, posted2) := render rest p1 in
      (p2, posted1 ++ posted2)
  end.

(** The samples of a sequence of quanta, in order. *)
Definition samplesOf (quanta : list (option (list Q) * Q)) : list Q :=
  concat (map (fun q => default [] (fst q)) quanta).

(** The buffer has its declared size and the cursor is inside it. *)
Definition wellFormed (p : AudioProcessor) : Prop :=
  length (buffer p) = bufferSize p /\ (bufferIndex p < bufferSize p)%nat.

End Worklet.

(* ===================================================================== *)
(** ** Properties of the codec *)
(* ===================================================================== *)

Module CodecProps.

Import Codec.

(** Every Int16 value is in the enumeration [allInt16]. *)
Lemma countUp_complete (n : nat) (from p : Z) :
  from <= p < from + Z.of_nat n -> In p (countUp n from).
Proof.
  revert from. induction n as [| n IH]; intros from Hp.
  - lia.
  - cbn [countUp]. destruct (Z.eq_dec from p) as [-> | Hne].
    + left. reflexivity.
    + right. apply IH. lia.
Qed.

Lemma allInt16_complete (p : Z) : int16 p -> In p allInt16.
Proof.
  intros [Hlo Hhi]. unfold allInt16.
  apply countUp_complete. lia.
Qed.

(** A boolean check that holds on all of [allInt16] holds on every Int16. *)
Lemma int16_exhaustive (check : Z -> bool) :
  forallb check allInt16 = true -> forall p, int16 p -> check p = true.
Proof.
  intros Hall p Hp.
  rewrite forallb_forall in Hall. apply Hall, allInt16_complete, Hp.
Qed.

(** The reference encoder on the usual G.711 test points. *)
Example muLawReference_vectors :
  map muLawReference [0; -1; 32767; -32768; 1000; -1000]
  = [0xff; 0x7f; 0x80; 0x00; 0xce; 0x4e].
Proof. reflexivity. Qed.

(** [linearToMuLaw] finds the sign and the exponent of the reference
    encoder on every Int16 sample: the two bytes have the same high
    nibble. *)
Lemma linearToMuLaw_segment (p : Z) :
  int16 p ->
  Z.shiftr (linearToMuLaw_sample p) 4 = Z.shiftr (muLawReference p) 4.
Proof.
  intros Hp. apply Z.eqb_eq.
  apply (int16_exhaustive
           (fun p => Z.shiftr (linearToMuLaw_sample p) 4
                     =? Z.shiftr (muLawReference p) 4)); [| exact Hp].
  vm_compute. reflexivity.
Qed.

(** The mantissa of [linearToMuLaw] is taken one bit too low: with [m] the
    biased magnitude and [e] its exponent, the low nibble encodes bits
    [e+2 .. e+5] of [m] where the reference encodes bits [e+3 .. e+6]. *)
Lemma linearToMuLaw_mantissa (p : Z) :
  int16 p ->
  let m := Z.min (Z.abs p) CLIP + BIAS in
  let e := Z.log2 m - 7 in
  Z.land (linearToMuLaw_sample p) 0x0f
  = Z.land (Z.lnot (Z.shiftr m (e + 2))) 0x0f.
Proof.
  intros Hp. apply Z.eqb_eq.
  apply (int16_exhaustive
           (fun p => Z.land (linearToMuLaw_sample p) 0x0f
                     =? Z.land (Z.lnot (Z.shiftr
                          (Z.min (Z.abs p) CLIP + BIAS)
                          (Z.log2 (Z.min (Z.abs p) CLIP + BIAS) - 7 + 2))) 0x0f));
    [| exact Hp].
  vm_compute. reflexivity.
Qed.

(** C4 (code defect).  On the all-zero input [linearToMuLaw] yields the byte
    0xFE, whereas the mu-law code of the sample 0 is 0xFF: the output of
    [linearToMuLaw] is not the reference encoding. *)
Theorem linearToMuLaw_zero_not_reference :
  linearToMuLaw [0; 0; 0] = [0xfe; 0xfe; 0xfe]
  /\ map muLawReference [0; 0; 0] = [0xff; 0xff; 0xff]
  /\ linearToMuLaw_sample 0 <> muLawReference 0.
Proof. repeat split; try reflexivity. discriminate. Qed.

(** Only 4337 of the 65536 Int16 samples are encoded as the reference
    encodes them. *)
Lemma linearToMuLaw_agreement_count :
  length (List.filter (fun p => linearToMuLaw_sample p =? muLawReference p)
            allInt16)
  = 4337%nat.
Proof. vm_compute. reflexivity. Qed.


(** *** PCM round trip *)

(** Truncation of [n * k / d] for a fraction [n / d] of [[0, 1]]. *)
Lemma quot_scaled_nonneg (n d k : Z) :
  0 < d -> 0 < k -> 0 <= n <= d ->
  0 <= Z.quot (n * k) d <= k /\ 0 <= n * k - Z.quot (n * k) d * d < d.
Proof.
  intros Hd Hk Hn.
  assert (Hnk : 0 <= n * k) by nia.
  rewrite Z.quot_div_nonneg by lia.
  pose proof (Z.div_mod (n * k) d ltac:(lia)) as Hdm.
  pose proof (Z.mod_pos_bound (n * k) d Hd) as Hm.
  assert (0 <= n * k / d) by (apply Z.div_pos; lia).
  assert (n * k / d <= k).
  { apply Z.div_le_upper_bound; nia. }
  nia.
Qed.

(** Truncation of [n * k / d] for a fraction [n / d] of [[-1, 0]]. *)
Lemma quot_scaled_nonpos (n d k : Z) :
  0 < d -> 0 < k -> - d <= n <= 0 ->
  - k <= Z.quot (n * k) d <= 0 /\ - d < n * k - Z.quot (n * k) d * d <= 0.
Proof.
  intros Hd Hk Hn.
  destruct (quot_scaled_nonneg (- n) d k Hd Hk ltac:(lia)) as [Hq Hr].
  replace (- n * k) with (- (n * k)) in * by ring.
  rewrite Z.quot_opp_l in * by lia.
  lia.
Qed.

Lemma wrapInt16_small (z : Z) : int16 z -> wrapInt16 z = z.
Proof.
  intros [Hlo Hhi]. unfold wrapInt16.
  rewrite Z.mod_small by lia. lia.
Qed.

(** The encoder and decoder on a sample that is already in [[-1, 1]]. *)
Lemma roundtrip_clamped (s : Q) :
  (-1 <= s <= 1)%Q ->
  let pcm := toInt16 (if Qneg_bool s then s * 32768 else s * 32767)%Q in
  (Qabs (convertPCMDataToFloat32_sample pcm - s) < 1 # 32767)%Q.
Proof.
  destruct s as [n d]. intros [Hlo Hhi]. cbv zeta.
  unfold Qle in Hlo, Hhi. cbn in Hlo, Hhi.
  unfold Qneg_bool, toInt16, truncate.
  destruct (Qle_bool 0 (n # d)) eqn:Hsign; cbn [negb].
  - (* s >= 0: scaled by 0x7fff *)
    apply Qle_bool_iff in Hsign. unfold Qle in Hsign. cbn in Hsign.
    cbn [Qmult Qnum Qden]. rewrite Pos.mul_1_r.
    destruct (quot_scaled_nonneg n (Z.pos d) 32767) as [Hq Hr]; try lia.
    set (t := Z.quot (n * 32767) (Z.pos d)) in *.
    rewrite wrapInt16_small by (unfold int16; lia).
    unfold convertPCMDataToFloat32_sample.
    replace (t <? 0) with false by (symmetry; apply Z.ltb_ge; lia).
    apply Qabs_Qlt_condition.
    unfold Qlt, Qminus, Qplus, Qopp, Qdiv, Qmult, Qinv, inject_Z.
    cbn [Qnum Qden]. rewrite ?Pos2Z.inj_mul. cbn [Z.opp]. lia.
  - (* s < 0: scaled by 0x8000 *)
    assert (Hneg : n < 0).
    { destruct (Z.lt_ge_cases n 0) as [|Hge]; [assumption|].
      assert (Qle_bool 0 (n # d) = true) as Ht
          by (apply Qle_bool_iff; unfold Qle; cbn; lia).
      congruence. }
    cbn [Qmult Qnum Qden]. rewrite Pos.mul_1_r.
    destruct (quot_scaled_nonpos n (Z.pos d) 32768) as [Hq Hr]; try lia.
    set (t := Z.quot (n * 32768) (Z.pos d)) in *.
    rewrite wrapInt16_small by (unfold int16; lia).
    unfold convertPCMDataToFloat32_sample.
    apply Qabs_Qlt_condition.
    destruct (t <? 0) eqn:Ht;
      unfold Qlt, Qminus, Qplus, Qopp, Qdiv, Qmult, Qinv, inject_Z;
      cbn [Qnum Qden]; rewrite ?Pos2Z.inj_mul; cbn [Z.opp].
    + apply Z.ltb_lt in Ht. lia.
    + apply Z.ltb_ge in Ht. assert (t = 0) by lia. subst t. lia.
Qed.

(** The same on a negative sample, whose scale factor is 0x8000 on both
    sides, but for the code 0, decoded with 0x7fff. *)
Lemma roundtrip_clamped_negative (s : Q) :
  (-1 <= s <= 1)%Q ->
  (s < 0)%Q ->
  let pcm := toInt16 (if Qneg_bool s then s * 32768 else s * 32767)%Q in
  (Qabs (convertPCMDataToFloat32_sample pcm - s) < 1 # 32768)%Q.
Proof.
  destruct s as [n d]. intros [Hlo Hhi] Hneg. cbv zeta.
  unfold Qle in Hlo, Hhi. unfold Qlt in Hneg. cbn in Hlo, Hhi, Hneg.
  unfold Qneg_bool, toInt16, truncate.
  destruct (Qle_bool 0 (n # d)) eqn:Hsign; cbn [negb].
  - apply Qle_bool_iff in Hsign. unfold Qle in Hsign. cbn in Hsign. lia.
  - cbn [Qmult Qnum Qden]. rewrite Pos.mul_1_r.
    destruct (quot_scaled_nonpos n (Z.pos d) 32768) as [Hq Hr]; try lia.
    set (t := Z.quot (n * 32768) (Z.pos d)) in *.
    rewrite wrapInt16_small by (unfold int16; lia).
    unfold convertPCMDataToFloat32_sample.
    apply Qabs_Qlt_condition.
    destruct (t <? 0) eqn:Ht;
      unfold Qlt, Qminus, Qplus, Qopp, Qdiv, Qmult, Qinv, inject_Z;
      cbn [Qnum Qden]; rewrite ?Pos2Z.inj_mul; cbn [Z.opp].
    + apply Z.ltb_lt in Ht. lia.
    + apply Z.ltb_ge in Ht. assert (t = 0) by lia. subst t. lia.
Qed.

(** Clamping leaves a sample of [[-1, 1]] as it is (up to the equality of
    fractions). *)
Lemma clamp_in_range (x : Q) :
  (-1 <= x <= 1)%Q -> (Qmax (-1) (Qmin 1 x) == x)%Q.
Proof.
  intros [Hlo Hhi].
  rewrite (Q.min_r 1 x) by exact Hhi.
  apply Q.max_r. exact Hlo.
Qed.

(** C5 (as the code has it).  For every sample [x] of [[-1, 1]], taken as
    an exact number, decoding the PCM16 code of [x] gives [x] back with an
    absolute error below 1/32767; and below 1/32768 when [x] is negative. *)
Theorem pcm_roundtrip_error (x : Q) :
  (-1 <= x <= 1)%Q ->
  (Qabs (pcmRoundTrip x - x) < 1 # 32767)%Q
  /\ ((x < 0)%Q -> (Qabs (pcmRoundTrip x - x) < 1 # 32768)%Q).
Proof.
  intros Hx.
  pose proof (clamp_in_range x Hx) as Hs.
  unfold pcmRoundTrip, floatTo16BitPCM_sample. cbv zeta.
  set (s := Qmax (-1) (Qmin 1 x)) in *.
  split.
  - rewrite <- Hs at 1.
    apply roundtrip_clamped.
    rewrite Hs. exact Hx.
  - intros Hneg. rewrite <- Hs at 1.
    apply roundtrip_clamped_negative; rewrite Hs; assumption.
Qed.

Lemma pcm_roundtrip_error_witness :
  ((-1 <= - (1 # 3) <= 1)
   /\ Qabs (pcmRoundTrip (- (1 # 3)) - - (1 # 3)) < 1 # 32767
   /\ Qabs (pcmRoundTrip (- (1 # 3)) - - (1 # 3)) < 1 # 32768)%Q.
Proof.
  assert (H : (-1 <= - (1 # 3) <= 1)%Q) by (split; discriminate).
  assert (Hneg : (- (1 # 3) < 0)%Q) by reflexivity.
  destruct (pcm_roundtrip_error (- (1 # 3)) H) as [H1 H2].
  split; [exact H |]. split; [exact H1 | exact (H2 Hneg)].
Defined.

(** C5 (as stated) fails: the sample 2^-15 + 2^-31, a binary32 number, is
    encoded as the PCM16 code 0 and decoded as 0, an error above 1/32768. *)
Lemma pcm_roundtrip_bound_fails :
  ~ (forall x : Q,
        (-1 <= x <= 1)%Q -> (Qabs (pcmRoundTrip x - x) <= 1 # 32768)%Q).
Proof.
  intros H.
  assert (Hx : (-1 <= 65537 # 2147483648 <= 1)%Q) by (split; discriminate).
  specialize (H (65537 # 2147483648)%Q Hx).
  vm_compute in H. apply H. reflexivity.
Qed.

(** The failing sample in detail. *)
Example pcm_roundtrip_small_sample :
  floatTo16BitPCM [65537 # 2147483648]%Q = [0]
  /\ (pcmRoundTrip (65537 # 2147483648) == 0)%Q.
Proof. split; reflexivity. Qed.


(** *** Bytes to PCM16 *)

Lemma wrapInt16_range (z : Z) : int16 (wrapInt16 z).
Proof.
  unfold int16, wrapInt16.
  pose proof (Z.mod_pos_bound (z + 32768) 65536 ltac:(lia)). lia.
Qed.

(** Induction on a list two elements at a time. *)
Lemma pair_induction {A} (P : list A -> Prop) :
  P [] -> (forall a, P [a]) ->
  (forall a b l, P l -> P (a :: b :: l)) ->
  forall l, P l.
Proof.
  intros Hnil Hone Hstep l.
  assert (H : P l /\ forall a, P (a :: l)).
  { induction l as [| b l [IH1 IH2]].
    - split; [exact Hnil | exact Hone].
    - split; [apply IH2 |]. intros a. apply Hstep, IH1. }
  apply H.
Qed.

Lemma bytesToPCM16_some (bytes : list Z) (pcm : list Z) :
  bytesToPCM16 bytes = Some pcm ->
  length bytes = (2 * length pcm)%nat /\ Forall int16 pcm.
Proof.
  revert pcm. induction bytes as [| a | a b l IH] using pair_induction;
    intros pcm H.
  - injection H as <-. split; [reflexivity | constructor].
  - discriminate H.
  - cbn [bytesToPCM16] in H.
    destruct (bytesToPCM16 l) as [rest |]; [| discriminate H].
    injection H as <-. destruct (IH rest eq_refl) as [Hlen Hall].
    split; [cbn; lia |].
    constructor; [apply wrapInt16_range | exact Hall].
Qed.

Lemma bytesToPCM16_none (bytes : list Z) :
  bytesToPCM16 bytes = None <-> Nat.Odd (length bytes).
Proof.
  induction bytes as [| a | a b l IH] using pair_induction.
  - split; [discriminate |]. intros [k Hk]. cbn in Hk. lia.
  - split; [| reflexivity]. intros _. exists 0%nat. reflexivity.
  - cbn [bytesToPCM16 length].
    destruct (bytesToPCM16 l) as [rest |].
    + split; [discriminate |]. intros [k Hk].
      assert (Hodd : Nat.Odd (length l)) by (exists (k - 1)%nat; lia).
      apply IH in Hodd. discriminate Hodd.
    + split; [| reflexivity]. intros _.
      destruct (proj1 IH eq_refl) as [k Hk]. exists (S k). lia.
Qed.

(** X3.  The view of the decoded bytes as 16-bit words: it exists exactly when
    the number of bytes is even (an odd number is the RangeError of
    [new Int16Array(buffer)]); it then has half as many elements, each an
    Int16 value. *)
Theorem base64ToPCM16Data_words (bytes : list Z) :
  (is_Some (bytesToPCM16 bytes) <-> Nat.Even (length bytes))
  /\ forall pcm,
       bytesToPCM16 bytes = Some pcm ->
       length bytes = (2 * length pcm)%nat /\ Forall int16 pcm.
Proof.
  split; [| apply bytesToPCM16_some].
  destruct (bytesToPCM16 bytes) as [pcm |] eqn:H.
  - split; [| intros _; eexists; reflexivity].
    intros _. exists (length pcm).
    apply (bytesToPCM16_some bytes pcm H).
  - apply bytesToPCM16_none in H. split.
    + intros [x Hx]. discriminate Hx.
    + intros Heven. exfalso.
      destruct H as [k Hk], Heven as [j Hj]. lia.
Qed.

Lemma int16Bytes_word (v : Z) :
  int16 v ->
  wrapInt16 (v mod 256 + 256 * ((v / 256) mod 256)) = v.
Proof.
  intros [Hlo Hhi]. unfold wrapInt16.
  Z.div_mod_to_equations. lia.
Qed.

(** X4.  Round trip with the buffer of an [Int16Array]: the bytes of any
    sequence of Int16 samples are viewed back as that sequence. *)
Theorem base64ToPCM16Data_roundtrip (pcm : list Z) :
  Forall int16 pcm ->
  bytesToPCM16 (concat (map int16Bytes pcm)) = Some pcm.
Proof.
  induction 1 as [| v pcm Hv _ IH]; [reflexivity |].
  cbn [map concat int16Bytes app bytesToPCM16].
  rewrite IH, (int16Bytes_word v Hv). reflexivity.
Qed.

Lemma base64ToPCM16Data_roundtrip_witness :
  Forall int16 [0; -1; 32767; -32768]
  /\ bytesToPCM16 (concat (map int16Bytes [0; -1; 32767; -32768]))
     = Some [0; -1; 32767; -32768].
Proof.
  assert (H : Forall int16 [0; -1; 32767; -32768])
    by (repeat constructor; unfold int16; lia).
  split; [exact H | exact (base64ToPCM16Data_roundtrip _ H)].
Defined.

(** *** The WAV header *)

Lemma le_bytes_uint32 (v : Z) :
  v mod 256 + 256 * ((v / 256) mod 256) + 65536 * ((v / 65536) mod 256)
  + 16777216 * ((v / 16777216) mod 256)
  = v mod 4294967296.
Proof.
  Z.div_mod_to_equations. lia.
Qed.

(** X7.  The header is 44 bytes, whatever the data length: the tags "RIFF",
    "WAVE", "fmt " and "data" at their offsets, a PCM format block for one
    channel of 16 bits at 44100 Hz (byte rate 88200, block align 2), the
    data size in the last field and the data size plus 36 in the RIFF size
    field, both reduced modulo 2^32. *)
Theorem createWavHeader_fields (dataLength : Z) :
  length (createWavHeader dataLength) = 44%nat
  /\ Forall (fun b => 0 <= b < 256) (createWavHeader dataLength)
  /\ firstn 4 (createWavHeader dataLength) = map charCode ["R"; "I"; "F"; "F"]%char
  /\ firstn 8 (skipn 8 (createWavHeader dataLength))
     = map charCode ["W"; "A"; "V"; "E"; "f"; "m"; "t"; " "]%char
  /\ firstn 4 (skipn 36 (createWavHeader dataLength))
     = map charCode ["d"; "a"; "t"; "a"]%char
  /\ getUint32 4 (createWavHeader dataLength) = (dataLength + 36) mod 4294967296
  /\ getUint32 40 (createWavHeader dataLength) = dataLength mod 4294967296
  /\ getUint32 16 (createWavHeader dataLength) = 16
  /\ getUint16 20 (createWavHeader dataLength) = 1
  /\ getUint16 22 (createWavHeader dataLength) = 1
  /\ getUint32 24 (createWavHeader dataLength) = 44100
  /\ getUint32 28 (createWavHeader dataLength) = 88200
  /\ getUint16 32 (createWavHeader dataLength) = 2
  /\ getUint16 34 (createWavHeader dataLength) = 16.
Proof.
  split; [reflexivity |]. split.
  { unfold createWavHeader, setUint32, setUint16, setUint8. cbn.
    repeat (constructor; [try lia; apply Z.mod_pos_bound; lia |]).
    constructor. }
  repeat split; try reflexivity.
  - unfold getUint32. cbn. apply le_bytes_uint32.
  - unfold getUint32. cbn. apply le_bytes_uint32.
Qed.

(** The header as an [Int16Array]: 22 words, whatever the data length. *)
Lemma wavHeader_words (dataLength : Z) :
  exists headerView,
    bytesToPCM16 (createWavHeader dataLength) = Some headerView
    /\ length headerView = 22%nat.
Proof.
  destruct (bytesToPCM16 (createWavHeader dataLength)) as [h |] eqn:H.
  - exists h. split; [reflexivity |].
    apply bytesToPCM16_some in H as [Hlen _].
    assert (length (createWavHeader dataLength) = 44%nat) by reflexivity. lia.
  - apply bytesToPCM16_none in H as [k Hk].
    assert (length (createWavHeader dataLength) = 44%nat) by reflexivity. lia.
Qed.

(** X9.  [convertPCMDataWithWavHeaderToFloat32] always returns; its result is
    22 samples longer than the input: the 22 words of the header come out
    as the first 22 samples, and the samples of the input, converted,
    follow them. *)
Theorem convertPCMDataWithWavHeaderToFloat32_layout (pcm16Data : list Z) :
  exists float32Data,
    convertPCMDataWithWavHeaderToFloat32 pcm16Data = Some float32Data
    /\ length float32Data = (22 + length pcm16Data)%nat
    /\ skipn 22 float32Data = convertPCMDataToFloat32 pcm16Data
    /\ nth 0 float32Data 0%Q = convertPCMDataToFloat32_sample 18770.
Proof.
  unfold convertPCMDataWithWavHeaderToFloat32.
  destruct (wavHeader_words (2 * Z.of_nat (length pcm16Data))) as (h & Hh & Hlen).
  rewrite Hh. eexists. split; [reflexivity |].
  unfold convertPCMDataToFloat32. rewrite map_app.
  split; [rewrite length_app, !length_map; lia |]. split.
  - rewrite skipn_app, length_map, Hlen, Nat.sub_diag.
    rewrite skipn_all2 by (rewrite length_map; lia). reflexivity.
  - revert Hh. unfold createWavHeader, setUint32, setUint16, setUint8. cbn.
    intros Hh. injection Hh as <-. reflexivity.
Qed.


(** *** The encoder on arbitrary samples *)

(** The PCM16 code of a fraction [n / d] of [[-1, 1]]. *)
Lemma encode_clamped (n : Z) (d : positive) :
  - Z.pos d <= n <= Z.pos d ->
  toInt16 (if Qneg_bool (n # d) then (n # d) * 32768 else (n # d) * 32767)%Q
  = if n <? 0 then Z.quot (n * 32768) (Z.pos d)
    else Z.quot (n * 32767) (Z.pos d).
Proof.
  intros Hn. unfold Qneg_bool, toInt16, truncate.
  destruct (n <? 0) eqn:Hsign.
  - apply Z.ltb_lt in Hsign.
    replace (Qle_bool 0 (n # d)) with false.
    + cbn [negb Qmult Qnum Qden]. rewrite Pos.mul_1_r.
      destruct (quot_scaled_nonpos n (Z.pos d) 32768) as [Hq _]; try lia.
      apply wrapInt16_small. unfold int16. lia.
    + symmetry. apply not_true_is_false. intros H.
      apply Qle_bool_iff in H. unfold Qle in H. cbn in H. lia.
  - apply Z.ltb_ge in Hsign.
    replace (Qle_bool 0 (n # d)) with true.
    + cbn [negb Qmult Qnum Qden]. rewrite Pos.mul_1_r.
      destruct (quot_scaled_nonneg n (Z.pos d) 32767) as [Hq _]; try lia.
      apply wrapInt16_small. unfold int16. lia.
    + symmetry. apply Qle_bool_iff. unfold Qle. cbn. lia.
Qed.

(** Clamping: the result, as a fraction, is in [[-1, 1]], and is [x]
    itself, 1 or -1 according to where [x] lies. *)
Lemma clamp_range (x : Q) :
  (-1 <= Qmax (-1) (Qmin 1 x) <= 1)%Q.
Proof.
  split.
  - apply Q.le_max_l.
  - apply Q.max_lub; [discriminate | apply Q.le_min_l].
Qed.

Lemma clamp_above (x : Q) : (1 <= x)%Q -> (Qmax (-1) (Qmin 1 x) == 1)%Q.
Proof.
  intros H. rewrite (Q.min_l 1 x) by exact H.
  apply Q.max_r. discriminate.
Qed.

Lemma clamp_below (x : Q) : (x <= -1)%Q -> (Qmax (-1) (Qmin 1 x) == -1)%Q.
Proof.
  intros H.
  assert (Hx1 : (x <= 1)%Q) by (eapply Qle_trans; [exact H | discriminate]).
  rewrite (Q.min_r 1 x) by exact Hx1.
  apply Q.max_l. exact H.
Qed.

Lemma clamp_monotone (x y : Q) :
  (x <= y)%Q -> (Qmax (-1) (Qmin 1 x) <= Qmax (-1) (Qmin 1 y))%Q.
Proof.
  intros H. apply Q.max_le_compat_l. apply Q.min_le_compat_l. exact H.
Qed.

(** The code of a clamped sample, as a function of the fraction. *)
Lemma encode_of_fraction (s : Q) :
  (-1 <= s <= 1)%Q ->
  toInt16 (if Qneg_bool s then s * 32768 else s * 32767)%Q
  = if Qnum s <? 0 then Z.quot (Qnum s * 32768) (Z.pos (Qden s))
    else Z.quot (Qnum s * 32767) (Z.pos (Qden s)).
Proof.
  destruct s as [n d]. intros [Hlo Hhi].
  unfold Qle in Hlo, Hhi. cbn in Hlo, Hhi.
  cbn [Qnum Qden]. apply encode_clamped. lia.
Qed.

(** Two fractions in order have their truncated scalings in order. *)
Lemma quotients_ordered_nonpos (a c b d k q1 q2 : Z) :
  0 < b -> 0 < d -> 0 < k ->
  a * d <= c * b ->
  - b < a * k - q1 * b ->
  c * k - q2 * d <= 0 ->
  q1 <= q2.
Proof.
  intros Hb Hd Hk Hle Hr1 Hr2.
  assert (H1 : a * k * d <= c * k * b) by nia.
  destruct (Z.le_gt_cases q1 q2) as [| Hgt]; [assumption | exfalso].
  assert (Hq : q2 + 1 <= q1) by lia.
  assert (Hbd : 0 < b * d) by nia.
  assert (H2 : (q2 + 1) * (b * d) <= q1 * (b * d)) by nia.
  assert (H3 : (q1 * b - b) * d < a * k * d) by nia.
  assert (H4 : c * k * b <= q2 * d * b) by nia.
  nia.
Qed.

Lemma quotients_ordered_nonneg (a c b d k q1 q2 : Z) :
  0 < b -> 0 < d -> 0 < k ->
  a * d <= c * b ->
  0 <= a * k - q1 * b ->
  c * k - q2 * d < d ->
  q1 <= q2.
Proof.
  intros Hb Hd Hk Hle Hr1 Hr2.
  assert (H1 : a * k * d <= c * k * b) by nia.
  destruct (Z.le_gt_cases q1 q2) as [| Hgt]; [assumption | exfalso].
  assert (Hq : q2 + 1 <= q1) by lia.
  assert (Hbd : 0 < b * d) by nia.
  assert (H2 : (q2 + 1) * (b * d) <= q1 * (b * d)) by nia.
  assert (H3 : q1 * b * d <= a * k * d) by nia.
  assert (H4 : c * k * b < (q2 * d + d) * b) by nia.
  nia.
Qed.

Lemma encode_fraction_monotone (s t : Q) :
  (-1 <= s <= 1)%Q -> (-1 <= t <= 1)%Q -> (s <= t)%Q ->
  toInt16 (if Qneg_bool s then s * 32768 else s * 32767)%Q
  <= toInt16 (if Qneg_bool t then t * 32768 else t * 32767)%Q.
Proof.
  intros Hs Ht Hst.
  rewrite (encode_of_fraction s Hs), (encode_of_fraction t Ht).
  destruct s as [a b], t as [c d]. cbn [Qnum Qden].
  destruct Hs as [Hs1 Hs2], Ht as [Ht1 Ht2].
  unfold Qle in *. cbn in *.
  destruct (a <? 0) eqn:Ha, (c <? 0) eqn:Hc;
    try apply Z.ltb_lt in Ha; try apply Z.ltb_ge in Ha;
    try apply Z.ltb_lt in Hc; try apply Z.ltb_ge in Hc.
  - (* both negative *)
    destruct (quot_scaled_nonpos a (Z.pos b) 32768) as [_ Hr1]; try lia.
    destruct (quot_scaled_nonpos c (Z.pos d) 32768) as [_ Hr2]; try lia.
    set (q1 := Z.quot (a * 32768) (Z.pos b)) in *.
    set (q2 := Z.quot (c * 32768) (Z.pos d)) in *.
    apply (quotients_ordered_nonpos a c (Z.pos b) (Z.pos d) 32768 q1 q2);
      lia.
  - (* negative, then non-negative *)
    pose proof (quot_scaled_nonpos a (Z.pos b) 32768
                  ltac:(lia) ltac:(lia) ltac:(lia)) as [Hq1 _].
    pose proof (quot_scaled_nonneg c (Z.pos d) 32767
                  ltac:(lia) ltac:(lia) ltac:(lia)) as [Hq2 _].
    lia.
  - exfalso. nia.
  - (* both non-negative *)
    destruct (quot_scaled_nonneg a (Z.pos b) 32767) as [_ Hr1]; try lia.
    destruct (quot_scaled_nonneg c (Z.pos d) 32767) as [_ Hr2]; try lia.
    set (q1 := Z.quot (a * 32767) (Z.pos b)) in *.
    set (q2 := Z.quot (c * 32767) (Z.pos d)) in *.
    apply (quotients_ordered_nonneg a c (Z.pos b) (Z.pos d) 32767 q1 q2);
      lia.
Qed.

(** X1.  [floatTo16BitPCM] saturates: every sample, in range or not, gets a
    code in the Int16 range; samples of 1 and above get 32767, samples of
    -1 and below get -32768. *)
Theorem floatTo16BitPCM_saturates (x : Q) :
  int16 (floatTo16BitPCM_sample x)
  /\ ((1 <= x)%Q -> floatTo16BitPCM_sample x = 32767)
  /\ ((x <= -1)%Q -> floatTo16BitPCM_sample x = -32768).
Proof.
  unfold floatTo16BitPCM_sample. cbv zeta.
  pose proof (clamp_range x) as Hr.
  set (s := Qmax (-1) (Qmin 1 x)) in *.
  rewrite (encode_of_fraction s Hr).
  destruct s as [n d] eqn:Hs. cbn [Qnum Qden].
  destruct Hr as [Hlo Hhi]. unfold Qle in Hlo, Hhi. cbn in Hlo, Hhi.
  split; [| split].
  - unfold int16. destruct (n <? 0) eqn:Hn.
    + apply Z.ltb_lt in Hn.
      destruct (quot_scaled_nonpos n (Z.pos d) 32768) as [Hq _]; lia.
    + apply Z.ltb_ge in Hn.
      destruct (quot_scaled_nonneg n (Z.pos d) 32767) as [Hq _]; lia.
  - intros Hx. pose proof (clamp_above x Hx) as H1.
    fold s in H1. rewrite Hs in H1. unfold Qeq in H1. cbn in H1.
    assert (n = Z.pos d) by lia. subst n.
    replace (Z.pos d <? 0) with false by (symmetry; apply Z.ltb_ge; lia).
    rewrite Z.mul_comm. apply Z.quot_mul. lia.
  - intros Hx. pose proof (clamp_below x Hx) as H1.
    fold s in H1. rewrite Hs in H1. unfold Qeq in H1. cbn in H1.
    assert (n = - Z.pos d) by lia. subst n.
    replace (- Z.pos d <? 0) with true by (symmetry; apply Z.ltb_lt; lia).
    replace (- Z.pos d * 32768) with (- 32768 * Z.pos d) by ring.
    apply Z.quot_mul. lia.
Qed.

(** X2.  [floatTo16BitPCM] keeps the order of samples: a larger sample never
    gets a smaller code. *)
Theorem floatTo16BitPCM_monotone (x y : Q) :
  (x <= y)%Q -> floatTo16BitPCM_sample x <= floatTo16BitPCM_sample y.
Proof.
  intros H. unfold floatTo16BitPCM_sample. cbv zeta.
  apply encode_fraction_monotone.
  - apply clamp_range.
  - apply clamp_range.
  - apply clamp_monotone, H.
Qed.

Lemma floatTo16BitPCM_monotone_witness :
  (1 # 3 <= 1 # 2)%Q
  /\ floatTo16BitPCM_sample (1 # 3) <= floatTo16BitPCM_sample (1 # 2).
Proof.
  assert (H : (1 # 3 <= 1 # 2)%Q) by discriminate.
  split; [exact H | exact (floatTo16BitPCM_monotone _ _ H)].
Defined.

(** *** The decoder *)

(** X8.  [convertPCMDataToFloat32] maps Int16 samples into [[-1, 1]], the two
    ends of the range to the two ends, and keeps the sign: negative
    samples stay negative, positive ones positive, and 0 gives 0. *)
Theorem convertPCMDataToFloat32_normalized (p : Z) :
  int16 p ->
  (-1 <= convertPCMDataToFloat32_sample p <= 1)%Q
  /\ (p < 0 -> (convertPCMDataToFloat32_sample p < 0)%Q)
  /\ (0 < p -> (0 < convertPCMDataToFloat32_sample p)%Q)
  /\ (p = 0 -> (convertPCMDataToFloat32_sample p == 0)%Q)
  /\ (p = 32767 -> (convertPCMDataToFloat32_sample p == 1)%Q)
  /\ (p = -32768 -> (convertPCMDataToFloat32_sample p == -1)%Q).
Proof.
  intros [Hlo Hhi]. unfold convertPCMDataToFloat32_sample.
  destruct (p <? 0) eqn:Hp;
    [apply Z.ltb_lt in Hp | apply Z.ltb_ge in Hp];
    unfold Qle, Qlt, Qeq, Qdiv, Qmult, Qinv, inject_Z; cbn [Qnum Qden];
    repeat split; intros; subst; try lia.
Qed.

Lemma convertPCMDataToFloat32_normalized_witness :
  int16 (-12345)
  /\ (-1 <= convertPCMDataToFloat32_sample (-12345) <= 1)%Q.
Proof.
  assert (H : int16 (-12345)) by (unfold int16; lia).
  split; [exact H | exact (proj1 (convertPCMDataToFloat32_normalized _ H))].
Defined.

(** *** mu-law: sign and clipping *)

(** X5.  [linearToMuLaw] puts the sign in the top bit: the byte of a
    non-negative sample is 128 or more, the byte of a negative sample is
    below 128, and the byte of [-p] is the byte of [p] with the top bit
    cleared, for every positive sample [p]. *)
Theorem linearToMuLaw_sign (p : Z) :
  int16 p ->
  0 <= linearToMuLaw_sample p <= 255
  /\ (0 <= p <-> 128 <= linearToMuLaw_sample p)
  /\ (0 < p -> linearToMuLaw_sample (- p) = linearToMuLaw_sample p - 128).
Proof.
  intros Hp.
  assert (H : ((0 <=? linearToMuLaw_sample p) && (linearToMuLaw_sample p <=? 255)
               && Bool.eqb (0 <=? p) (128 <=? linearToMuLaw_sample p)
               && ((p <=? 0)
                   || (linearToMuLaw_sample (- p) =? linearToMuLaw_sample p - 128)))
              = true).
  { apply (int16_exhaustive
             (fun p => (0 <=? linearToMuLaw_sample p)
                       && (linearToMuLaw_sample p <=? 255)
                       && Bool.eqb (0 <=? p) (128 <=? linearToMuLaw_sample p)
                       && ((p <=? 0)
                           || (linearToMuLaw_sample (- p)
                               =? linearToMuLaw_sample p - 128))));
      [| exact Hp].
    vm_compute. reflexivity. }
  apply andb_prop in H as [H H3]. apply andb_prop in H as [H H2].
  apply andb_prop in H as [H0 H1].
  apply Z.leb_le in H0, H1. apply Bool.eqb_prop in H2.
  split; [lia |]. split.
  - rewrite <- !Z.leb_le. rewrite H2. reflexivity.
  - intros Hpos. apply orb_prop in H3 as [H3 | H3].
    + apply Z.leb_le in H3. lia.
    + apply Z.eqb_eq, H3.
Qed.

Lemma linearToMuLaw_sign_witness :
  int16 1000
  /\ linearToMuLaw_sample (- 1000) = linearToMuLaw_sample 1000 - 128.
Proof.
  assert (H : int16 1000) by (unfold int16; lia).
  split; [exact H |].
  apply (proj2 (proj2 (linearToMuLaw_sign 1000 H))). lia.
Defined.

(** X6.  [linearToMuLaw] clips: every sample of magnitude 32635 or more gets
    the byte of the largest magnitude, 0x80 when positive and 0x00 when
    negative. *)
Theorem linearToMuLaw_clips (p : Z) :
  int16 p ->
  (CLIP <= p -> linearToMuLaw_sample p = 0x80)
  /\ (p <= - CLIP -> linearToMuLaw_sample p = 0x00).
Proof.
  intros Hp.
  assert (H : (((p <? CLIP) || (linearToMuLaw_sample p =? 0x80))
               && ((- CLIP <? p) || (linearToMuLaw_sample p =? 0x00))) = true).
  { apply (int16_exhaustive
             (fun p => ((p <? CLIP) || (linearToMuLaw_sample p =? 0x80))
                       && ((- CLIP <? p) || (linearToMuLaw_sample p =? 0x00))));
      [| exact Hp].
    vm_compute. reflexivity. }
  apply andb_prop in H as [H1 H2]. split; intros Hc.
  - apply orb_prop in H1 as [H1 | H1];
      [apply Z.ltb_lt in H1; lia | apply Z.eqb_eq, H1].
  - apply orb_prop in H2 as [H2 | H2];
      [apply Z.ltb_lt in H2; lia | apply Z.eqb_eq, H2].
Qed.

Lemma linearToMuLaw_clips_witness :
  int16 32700 /\ linearToMuLaw_sample 32700 = 0x80.
Proof.
  assert (H : int16 32700) by (unfold int16; lia).
  split; [exact H |].
  apply (proj1 (linearToMuLaw_clips 32700 H)). unfold CLIP. lia.
Defined.

(** The sign and the exponent bits of [linearToMuLaw] are those of the
    G.711 encoder, checked at a sample. *)
Lemma linearToMuLaw_segment_witness :
  int16 (-1234)
  /\ Z.shiftr (linearToMuLaw_sample (-1234)) 4
     = Z.shiftr (muLawReference (-1234)) 4.
Proof.
  assert (H : int16 (-1234)) by (unfold int16; lia).
  split; [exact H | exact (linearToMuLaw_segment _ H)].
Defined.


(** *** Resampling at equal rates *)

Lemma map_seq_nth (f : nat -> Q) (l : list Q) (k : nat) :
  (forall i, (i < length l)%nat -> (f (k + i)%nat == nth i l 0)%Q) ->
  Forall2 Qeq (map f (seq k (length l))) l.
Proof.
  revert k. induction l as [| x l IH]; intros k H; [constructor |].
  cbn [length seq map]. constructor.
  - specialize (H 0%nat ltac:(cbn; lia)). rewrite Nat.add_0_r in H. exact H.
  - apply IH. intros i Hi.
    specialize (H (S i) ltac:(cbn; lia)).
    rewrite Nat.add_succ_r in H. exact H.
Qed.

(** With a ratio equal to 1, every output sample is the input sample at
    the same place. *)
Lemma interpolate_unit_ratio (audioData : list Q) (ratio : Q) (i : nat) :
  (ratio == 1)%Q -> (i < length audioData)%nat ->
  (interpolate audioData ratio i == nth i audioData 0)%Q.
Proof.
  intros Hratio Hi. unfold interpolate. cbv zeta.
  assert (Hpos : (inject_Z (Z.of_nat i) / ratio == inject_Z (Z.of_nat i))%Q).
  { rewrite Hratio. unfold Qdiv. change (/ 1)%Q with 1%Q. apply Qmult_1_r. }
  assert (Hidx : Qfloor (inject_Z (Z.of_nat i) / ratio) = Z.of_nat i).
  { rewrite (Qfloor_comp _ _ Hpos). apply Qfloor_Z. }
  rewrite Hidx.
  destruct (Z.of_nat (length audioData) - 1 <=? Z.of_nat i) eqn:Hlast.
  - apply Z.leb_le in Hlast.
    replace (length audioData - 1)%nat with i by lia. reflexivity.
  - rewrite Nat2Z.id, Hpos. ring.
Qed.

(** X10.  [resampleAudio] from a rate to the same rate (not zero) returns the
    samples it was given: as many, each equal to the input sample at its
    place. *)
Theorem resampleAudio_same_rate (audioData : list Q) (rate : Z) :
  rate <> 0 ->
  exists result,
    resampleAudio audioData rate rate = Some result
    /\ Forall2 Qeq result audioData.
Proof.
  intros Hrate. unfold resampleAudio. cbv zeta.
  replace (rate =? 0) with false by (symmetry; apply Z.eqb_neq, Hrate).
  assert (Hratio : (inject_Z rate / inject_Z rate == 1)%Q).
  { apply Qmult_inv_r. unfold Qeq. cbn. lia. }
  assert (Hlen : Qfloor (inject_Z (Z.of_nat (length audioData))
                        * (inject_Z rate / inject_Z rate))
                 = Z.of_nat (length audioData)).
  { rewrite (Qfloor_comp _ (inject_Z (Z.of_nat (length audioData)))).
    - apply Qfloor_Z.
    - rewrite Hratio. apply Qmult_1_r. }
  rewrite Hlen.
  replace (Z.of_nat (length audioData) <? 0) with false
    by (symmetry; apply Z.ltb_ge; lia).
  eexists. split; [reflexivity |].
  rewrite Nat2Z.id. apply map_seq_nth.
  intros i Hi. apply interpolate_unit_ratio; assumption.
Qed.

Lemma resampleAudio_same_rate_witness :
  44100 <> 0
  /\ exists result,
       resampleAudio [1 # 2; -1 # 4; 0]%Q 44100 44100 = Some result
       /\ Forall2 Qeq result [1 # 2; -1 # 4; 0]%Q.
Proof.
  assert (H : 44100 <> 0) by discriminate.
  split; [exact H | exact (resampleAudio_same_rate _ 44100 H)].
Defined.

End CodecProps.

(* ===================================================================== *)
(** ** Properties of the hook *)
(* ===================================================================== *)

Module HookProps.

Import Codec Hook.

Local Open Scope list_scope.

(** *** Reasoning about actions *)

Lemma after_bind {A B} (m : Action A) (k : A -> Action B) s :
  after (bind m k) s = after (k (value m s)) (after m s).
Proof.
  unfold after, value, bind.
  destruct (m s) as [[a s1] o1]. cbn. destruct (k a s1) as [[b s2] o2].
  reflexivity.
Qed.

Lemma effects_bind {A B} (m : Action A) (k : A -> Action B) s :
  effects (bind m k) s = effects m s ++ effects (k (value m s)) (after m s).
Proof.
  unfold effects, after, value, bind.
  destruct (m s) as [[a s1] o1]. cbn. destruct (k a s1) as [[b s2] o2].
  reflexivity.
Qed.

Lemma value_bind {A B} (m : Action A) (k : A -> Action B) s :
  value (bind m k) s = value (k (value m s)) (after m s).
Proof.
  unfold after, value, bind.
  destruct (m s) as [[a s1] o1]. cbn. destruct (k a s1) as [[b s2] o2].
  reflexivity.
Qed.

Section Rules.

Context (R : Hook -> Hook -> list Effect -> Prop) `{!Composable R}.

Lemma holds_ret {A} (a : A) : holds R (ret a).
Proof. intros s. apply composable_refl. Qed.

Lemma holds_skip : holds R skip.
Proof. apply holds_ret. Qed.

Lemma holds_read {A} (f : Hook -> A) : holds R (read f).
Proof. intros s. apply composable_refl. Qed.

Lemma holds_bind {A B} (m : Action A) (k : A -> Action B) :
  holds R m -> (forall a, holds R (k a)) -> holds R (bind m k).
Proof.
  intros Hm Hk s. rewrite after_bind, effects_bind.
  eapply composable_trans; [apply Hm | apply Hk].
Qed.

(** Binding a value read from the state: the continuation may be checked
    with the state at hand. *)
Lemma holds_read_bind {A B} (f : Hook -> A) (k : A -> Action B) :
  (forall s, R s (after (k (f s)) s) (effects (k (f s)) s)) ->
  holds R (bind (read f) k).
Proof.
  intros Hk s. rewrite after_bind, effects_bind. cbn. apply Hk.
Qed.

Lemma holds_emit (e : Effect) : (forall s, R s s [e]) -> holds R (emit e).
Proof. intros H s. apply H. Qed.

Lemma holds_modify (f : Hook -> Hook) :
  (forall s, R s (f s) []) -> holds R (modify f).
Proof. intros H s. apply H. Qed.

End Rules.

#[export] Instance keeps_composable I X : Composable (keeps I X).
Proof.
  split.
  - intros s Hs. split; [exact Hs | reflexivity].
  - intros s1 s2 s3 o1 o2 H12 H23 Hs.
    destruct (H12 Hs) as [H2 Ho1]. destruct (H23 H2) as [H3 Ho2].
    split; [exact H3 |]. rewrite List.filter_app, Ho1, Ho2. reflexivity.
Qed.

Lemma keeps_emit I X e : X e = false -> holds (keeps I X) (emit e).
Proof.
  intros He s Hs. split; [exact Hs |]. cbn. rewrite He. reflexivity.
Qed.

Lemma keeps_modify I X f :
  (forall s, I s -> I (f s)) -> holds (keeps I X) (modify f).
Proof. intros Hf s Hs. split; [apply Hf, Hs | reflexivity]. Qed.

Create HintDb actions.
Create HintDb invariants.
Create HintDb kept.

(** Decompose an action along its binds, conditionals and matches. *)
Ltac split_action :=
  repeat match goal with
         | |- holds _ skip => apply holds_skip; solve [typeclasses eauto]
         | |- holds _ (ret _) => apply holds_ret; solve [typeclasses eauto]
         | |- holds _ (read _) => apply holds_read; solve [typeclasses eauto]
         | |- holds _ (bind _ _) =>
             apply holds_bind; [solve [typeclasses eauto] | | intros ?]
         | |- holds _ (if ?b then _ else _) => destruct b
         | |- holds _ (match ?x with _ => _ end) => destruct x
         end.

(** Leaves of a [keeps] goal: an effect outside the class, or a state
    update under which the invariant is stable. *)
Ltac keeps_leaf :=
  first
    [ apply keeps_emit; reflexivity
    | apply keeps_modify; intros ? ?;
      autounfold with invariants in *; cbn in *;
      rewrite ?length_alter; intuition (auto; congruence) ].

#[local] Hint Unfold
  getOrCreateAudioContext initializeVisualizer resetAudioInput
  setupAudioStream startProcessing stopProcessing workletMessage
  playNextChunk sourceEnded processAudioChunk processAudioMessage
  cleanup onopen onmessage onclose onerror disconnect
  setupAudioStream_request setupAudioStream_settled
  startProcessing_request startProcessing_settled
  onopen_finish onopen_capture onopen_opened onopen_userMedia onopen_module
  sendCurrent closeCurrent wsClose setReadyState onSocket : actions.

(** Prove that an action keeps an invariant and stays out of a class of
    effects, by cases on its control flow. *)
Ltac keeps_auto :=
  repeat autounfold with actions;
  split_action;
  first [ solve [eauto 2 with kept] | keeps_leaf ].

Arguments takeChunks : simpl never.

(** The dequeue loop leaves a tail of the queue. *)
Lemma takeChunks_sublist queue total :
  sublist (snd (takeChunks queue total)) queue.
Proof.
  revert total. induction queue as [| chunk rest IH]; intros total.
  - reflexivity.
  - unfold takeChunks; fold takeChunks.
    destruct (total <? bufferSize); [| reflexivity].
    specialize (IH (total + Z.of_nat (length chunk))).
    destruct (takeChunks rest (total + Z.of_nat (length chunk))) as [chunks left'].
    cbn in *. apply sublist_cons, IH.
Qed.

(** Case analysis on the scrutinee of a conditional or of a match over one
    of the model's data types. *)
Ltac case_step :=
  match goal with
  | |- context [if ?b then _ else _] => destruct b eqn:?
  | |- context [match ?x with _ => _ end] =>
      match type of x with
      | option _ => destruct x eqn:?
      | ReadyState => destruct x eqn:?
      | Handlers => destruct x eqn:?
      | Parsed => destruct x eqn:?
      | Completion => destruct x eqn:?
      | Suspended => destruct x eqn:?
      | list _ => destruct x eqn:?
      end
  | |- context [match takeChunks ?q ?t with _ => _ end] =>
      pose proof (takeChunks_sublist q t);
      destruct (takeChunks q t); cbn [snd] in *
  end.

(** Run an action on a symbolic state, by cases on what it reads; the
    equations in the context about fields of the state are used. *)
Ltac exec :=
  unfold after, effects, value;
  repeat autounfold with actions;
  unfold bind, read, modify, emit, skip, ret, currentReadyState;
  repeat (cbn;
          first [ match goal with
                  | H : ?f ?s = _ |- context [?f ?s] => rewrite H
                  end
                | case_step ]);
  cbn.

(** The same on a state given by its fields, by evaluation. *)
Ltac exec_vm := repeat (vm_compute; try case_step).

(** *** C10: [connect] after teardown *)

#[local] Hint Unfold tornDown : invariants.

Lemma connect_cleaned_up env s :
  isCleanedUp s = true -> connect env s = (tt, s, []).
Proof.
  intros Hs. unfold connect, bind, read. cbn. rewrite Hs.
  rewrite orb_true_r. reflexivity.
Qed.

Lemma tornDown_alter n f w s :
  tornDown n s -> tornDown n (set_sockets (alter f w (sockets s)) s).
Proof.
  intros [Hc Hn]. split; cbn; [exact Hc |]. rewrite length_alter. exact Hn.
Qed.

Lemma tornDown_connect env n :
  holds (keeps (tornDown n) isNewWebSocket) (connect env).
Proof.
  intros s [Hc Hn]. unfold after, effects.
  rewrite (connect_cleaned_up env s Hc). cbn. repeat split; assumption.
Qed.

Lemma tornDown_handle env n e :
  isReconnect e = false ->
  holds (keeps (tornDown n) isNewWebSocket) (handle env e).
Proof.
  intros He. destruct e; try discriminate He; cbn [handle].
  all: try apply tornDown_connect.
  all: keeps_auto.
Qed.


Lemma keeps_after {A} I X (m : Action A) s :
  holds (keeps I X) m -> I s -> I (after m s).
Proof. intros H Hs. apply (H s Hs). Qed.

Lemma keeps_effects {A} I X (m : Action A) s :
  holds (keeps I X) m -> I s -> List.filter X (effects m s) = [].
Proof. intros H Hs. apply (H s Hs). Qed.

Lemma after_run_cons env e events s :
  after (run env (e :: events)) s
  = after (run env events) (after (handle env e) s).
Proof. cbn [run]. apply after_bind. Qed.

Lemma effects_run_cons env e events s :
  effects (run env (e :: events)) s
  = effects (handle env e) s ++ effects (run env events) (after (handle env e) s).
Proof. cbn [run]. apply effects_bind. Qed.

(** A relation that every event of a list keeps is kept by running the
    list. *)
Lemma holds_run R `{!Composable R} env events :
  Forall (fun e => holds R (handle env e)) events -> holds R (run env events).
Proof.
  induction 1 as [| e events He _ IH]; cbn [run].
  - apply holds_skip; assumption.
  - apply holds_bind; [assumption | exact He | intros _; exact IH].
Qed.

Lemma tornDown_run env n events :
  Forall (fun e => isReconnect e = false) events ->
  holds (keeps (tornDown n) isNewWebSocket) (run env events).
Proof.
  intros Hev. apply holds_run; [typeclasses eauto |].
  eapply Forall_impl; [exact Hev |].
  intros e He. apply tornDown_handle, He.
Qed.

(** [cleanup] leaves the marker set, whether it runs its body or not. *)
Lemma cleanup_sets_marker source s :
  isCleanedUp (after (cleanup source) s) = true.
Proof.
  unfold cleanup. rewrite after_bind. cbn [read value after fst snd].
  destruct (isCleanedUp s) eqn:Hs; [exact Hs |].
  rewrite after_bind.
  apply (keeps_after (fun s => isCleanedUp s = true) (fun _ => false)).
  - keeps_auto.
  - reflexivity.
Qed.

(** [reconnect] with a URL clears the marker and opens a new socket. *)
Lemma reconnect_opens_socket env cb s :
  truthy (websocketUrl env) = true ->
  let s' := after (reconnect env cb) s in
  isCleanedUp s' = false
  /\ websocketRef s' = Some (length (sockets s))
  /\ sockets s' !! length (sockets s)
     = Some (mkWebSocket CONNECTING (byReconnect cb)).
Proof.
  intros Hurl. unfold reconnect, newWebSocket. rewrite Hurl. cbn [negb].
  exec; rewrite ?length_alter;
    (split; [reflexivity | split; [reflexivity |]]);
    rewrite lookup_app_r, ?length_alter, Nat.sub_diag
      by (rewrite ?length_alter; lia); reflexivity.
Qed.

(** C10.  The marker is set by [cleanup]; and once it is set, whatever
    events other than [reconnect] follow, no socket is created, the marker
    stays set, and [connect()] returns at once with the state unchanged and
    nothing done. *)
Theorem connect_noop_after_teardown env s events :
  isCleanedUp s = true ->
  Forall (fun e => isReconnect e = false) events ->
  connect env (after (run env events) s) = (tt, after (run env events) s, [])
  /\ isCleanedUp (after (run env events) s) = true
  /\ length (sockets (after (run env events) s)) = length (sockets s)
  /\ List.filter isNewWebSocket (effects (run env events) s) = [].
Proof.
  intros Hs Hev. set (s' := after (run env events) s).
  pose proof (tornDown_run env (length (sockets s)) events Hev s) as H.
  destruct H as [[Hc Hn] Ho]; [split; [exact Hs | reflexivity] |].
  fold s' in Hc, Hn.
  repeat split; try assumption.
  apply connect_cleaned_up, Hc.
Qed.


(** *** C1: teardown runs once *)

#[local] Hint Unfold tornDownState : invariants.

(** With the marker clear, [cleanup] performs the teardown sequence and
    leaves the state cleared. *)
Lemma cleanup_live source s :
  isCleanedUp s = false ->
  cleanup source s = (tt, afterTeardown s, teardownSequence s source).
Proof.
  intros Hs. destruct s. cbn in Hs. subst. exec_vm; reflexivity.
Qed.

Lemma cleanup_effects source s :
  isCleanedUp s = false ->
  effects (cleanup source) s = teardownSequence s source.
Proof. intros Hs. unfold effects. rewrite cleanup_live by exact Hs. reflexivity. Qed.

Lemma cleanup_after source s :
  isCleanedUp s = false -> after (cleanup source) s = afterTeardown s.
Proof. intros Hs. unfold after. rewrite cleanup_live by exact Hs. reflexivity. Qed.

Lemma afterTeardown_tornDown s : tornDownState (afterTeardown s).
Proof. unfold tornDownState. cbn. repeat split; reflexivity. Qed.

Lemma teardownSequence_teardown s source :
  List.filter isTeardown (teardownSequence s source) = teardownSequence s source.
Proof.
  unfold teardownSequence.
  destruct (audioWorkletNode s), (sourceNode s), (websocketRef s),
    (currentReadyState s) as [[] |], (analyzerRef s), (audioContextRef s),
    (sourceNodeRef s), (streamRef s); reflexivity.
Qed.

(** The teardown sequence ends with the one closure notification. *)
Lemma teardownSequence_onClose s source :
  List.filter isOnClose (teardownSequence s source) = [OnClose source].
Proof.
  unfold teardownSequence.
  destruct (audioWorkletNode s), (sourceNode s), (websocketRef s),
    (currentReadyState s) as [[] |], (analyzerRef s), (audioContextRef s),
    (sourceNodeRef s), (streamRef s); reflexivity.
Qed.

Lemma filter_onClose_teardown (out : list Effect) :
  List.filter isOnClose (List.filter isTeardown out) = List.filter isOnClose out.
Proof.
  induction out as [| e out IH]; [reflexivity |].
  destruct e; cbn; rewrite ?IH; reflexivity.
Qed.

(** With the marker clear, [cleanup] leaves the hook torn down. *)
Lemma cleanup_tornDown source s :
  isCleanedUp s = false -> tornDownState (after (cleanup source) s).
Proof.
  intros Hs. rewrite cleanup_after by exact Hs. apply afterTeardown_tornDown.
Qed.

Lemma stopProcessing_idle s :
  audioWorkletNode s = false -> sourceNode s = false ->
  stopProcessing s = (tt, s, []).
Proof.
  intros Hw Hn. unfold stopProcessing, bind, read, skip, ret.
  cbn. rewrite Hw. cbn. rewrite Hn. reflexivity.
Qed.

(** The handlers of the teardown signals, with the marker clear, in terms
    of [cleanup]. *)
Lemma onerror_live s :
  isCleanedUp s = false ->
  after onerror s = afterTeardown s
  /\ effects onerror s
     = [LogError "WebSocket error:"; OnException] ++ teardownSequence s server.
Proof.
  intros Hs. unfold onerror, after, effects, bind, emit, read.
  cbn -[cleanup]. rewrite Hs, (cleanup_live server s Hs).
  split; reflexivity.
Qed.

Lemma onclose_live reason s :
  isCleanedUp s = false ->
  after (onclose reason) s = afterTeardown s
  /\ List.filter isTeardown (effects (onclose reason) s)
     = teardownSequence s server.
Proof.
  intros Hs. unfold onclose, after, effects, bind, emit, read, skip, ret.
  destruct (String.eqb reason "LINK_EXPIRED");
    cbn -[cleanup stopProcessing teardownSequence afterTeardown];
    rewrite Hs, (cleanup_live server s Hs);
    rewrite stopProcessing_idle by reflexivity;
    cbn -[teardownSequence afterTeardown];
    rewrite ?app_nil_r, teardownSequence_teardown; split; reflexivity.
Qed.

Lemma onSocket_found w k s x :
  sockets s !! w = Some x -> onSocket w k s = k (handlers x) s.
Proof.
  intros Hx. unfold onSocket, bind, read. cbn. rewrite Hx.
  destruct (k (handlers x) s) as [[u s'] o]. reflexivity.
Qed.

(** The first teardown signal performs the teardown sequence, once, and
    leaves the hook torn down. *)
Lemma first_signal env e s :
  isCleanedUp s = false ->
  deliverable s e = true ->
  isTeardownSignal e = true ->
  List.filter isTeardown (effects (handle env e) s)
  = teardownSequence (signalState e s) (signalSource e)
  /\ tornDownState (after (handle env e) s).
Proof.
  intros Hs Hd He.
  destruct e; try discriminate He; cbn [handle signalState signalSource];
    cbn in Hd; try apply bool_decide_eq_true in Hd as [x Hx].
  - (* disconnect() *)
    unfold disconnect. split.
    + rewrite cleanup_effects by exact Hs. apply teardownSequence_teardown.
    + apply cleanup_tornDown, Hs.
  - (* close event *)
    unfold after at 2, effects at 1.
    rewrite (onSocket_found _ _ _ _ Hx).
    fold (effects (setReadyState w CLOSED;; onclose reason) s).
    fold (after (setReadyState w CLOSED;; onclose reason) s).
    rewrite after_bind, effects_bind. cbn [effects setReadyState modify snd app].
    set (s1 := after (setReadyState w CLOSED) s).
    assert (Hs1 : isCleanedUp s1 = false) by exact Hs.
    destruct (onclose_live reason s1 Hs1) as [Hafter Heff].
    rewrite Hafter, Heff. split; [reflexivity | apply afterTeardown_tornDown].
  - (* error event *)
    unfold after at 1, effects at 1.
    rewrite (onSocket_found _ _ _ _ Hx).
    fold (effects onerror s). fold (after onerror s).
    destruct (onerror_live s Hs) as [Hafter Heff].
    rewrite Hafter, Heff. split; [| apply afterTeardown_tornDown].
    cbn [app List.filter isTeardown]. apply teardownSequence_teardown.
Qed.

(** A teardown signal that finds the hook torn down changes nothing of it
    and performs no step of the teardown sequence. *)
Lemma later_signal env e :
  isTeardownSignal e = true ->
  holds (keeps tornDownState isTeardown) (handle env e).
Proof.
  intros He s Hs. unfold tornDownState in *.
  destruct Hs as (H1 & H2 & H3 & H4 & H5 & H6 & H7 & H8 & H9 & H10 & H11 & H12).
  destruct e; try discriminate He; cbn [handle];
    unfold disconnect; exec; repeat split; congruence.
Qed.

Lemma later_signals env events :
  Forall (fun e => isTeardownSignal e = true) events ->
  holds (keeps tornDownState isTeardown) (run env events).
Proof.
  intros Hev. apply holds_run; [typeclasses eauto |].
  eapply Forall_impl; [exact Hev |].
  intros e He. apply later_signal, He.
Qed.

(** C1.  From a state whose marker is clear, let any teardown signals
    arrive, [disconnect()] calls and socket close and error events in any
    number and order.  The steps of the teardown sequence performed over
    the whole run are those of the sequence run once, at the first signal;
    exactly one closure notification is emitted, with the cause of the first
    signal; and the hook ends torn down. *)
Theorem teardown_exactly_once env s e events :
  isCleanedUp s = false ->
  deliverable s e = true ->
  Forall (fun e => isTeardownSignal e = true) (e :: events) ->
  List.filter isTeardown (effects (run env (e :: events)) s)
  = teardownSequence (signalState e s) (signalSource e)
  /\ List.filter isOnClose (effects (run env (e :: events)) s)
     = [OnClose (signalSource e)]
  /\ length (List.filter isOnClose (effects (run env (e :: events)) s)) = 1%nat
  /\ tornDownState (after (run env (e :: events)) s).
Proof.
  intros Hs Hd Hall. set (out := effects (run env (e :: events)) s).
  apply Forall_cons in Hall as [He Hev].
  destruct (first_signal env e s Hs Hd He) as [Hfirst Hdown].
  destruct (later_signals env events Hev _ Hdown) as [Hend Hrest].
  assert (Hout : List.filter isTeardown out
                 = teardownSequence (signalState e s) (signalSource e)).
  { unfold out. rewrite effects_run_cons, List.filter_app, Hrest, Hfirst.
    apply app_nil_r. }
  assert (Hclose : List.filter isOnClose out = [OnClose (signalSource e)]).
  { rewrite <- filter_onClose_teardown, Hout. apply teardownSequence_onClose. }
  split; [exact Hout |]. split; [exact Hclose |]. split.
  - rewrite Hclose. reflexivity.
  - rewrite after_run_cons. exact Hend.
Qed.


Example liveState_shape :
  websocketRef liveState = Some 0%nat
  /\ sockets liveState = [mkWebSocket OPEN byConnect]
  /\ isConnected liveState = true /\ isCleanedUp liveState = false
  /\ streamRef liveState = Some 7%nat /\ audioWorkletNode liveState = true.
Proof. repeat split; reflexivity. Qed.

Lemma teardown_exactly_once_witness :
  isCleanedUp liveState = false
  /\ deliverable liveState call_disconnect = true
  /\ List.filter isOnClose
       (effects (run exampleEnv (call_disconnect :: teardownSignals)) liveState)
     = [OnClose client].
Proof.
  split; [reflexivity |]. split; [reflexivity |].
  apply (teardown_exactly_once exampleEnv liveState call_disconnect
           teardownSignals).
  - reflexivity.
  - reflexivity.
  - repeat constructor.
Defined.

(** [disconnect()] twice in a row, then the close event of the socket: the
    whole trace. *)
Example disconnect_twice_trace :
  effects (run exampleEnv [call_disconnect; call_disconnect; ws_close 0 EmptyString])
          liveState
  = [WorkletDisconnect; CaptureSourceDisconnect; WsClose 0;
     AudioContextClose; TracksStop 7; OnClose client].
Proof. reflexivity. Qed.

Lemma connect_noop_after_teardown_witness :
  isCleanedUp closedState = true
  /\ connect exampleEnv (after (run exampleEnv laterEvents) closedState)
     = (tt, after (run exampleEnv laterEvents) closedState, []).
Proof.
  split; [reflexivity |].
  apply (connect_noop_after_teardown exampleEnv closedState laterEvents).
  - reflexivity.
  - repeat constructor.
Defined.

(** *** C2: failure to acquire the capture device *)

(** C2 (as stated) fails: [connect()], the socket opens, [getUserMedia]
    rejects; the exception reaches [onException], but [isConnected] is true
    and the socket is open. *)
Lemma acquisition_failure_is_connected :
  In OnException (effects (run exampleEnv failedAcquisition) initial)
  /\ isConnected (after (run exampleEnv failedAcquisition) initial) = true
  /\ sockets (after (run exampleEnv failedAcquisition) initial)
     = [mkWebSocket OPEN byConnect].
Proof. cbn. repeat split; try reflexivity. right. right. left. reflexivity. Qed.

(** C2 (as the code has it).  When [getUserMedia] rejects in the open
    handler, the rejection is logged and passed to [onException] and the
    rest of the handler is abandoned: capture is not started, no start frame
    is sent, nothing is closed.  [isConnected], set before the acquisition
    was attempted, is true. *)
Theorem acquisition_failure_surfaced env w h moduleLoaded s :
  isCleanedUp s = false ->
  isAudioNodesConnected s = false ->
  onopen env w h None moduleLoaded s
  = (tt, set_isConnected true s,
     match streamRef s with Some st => [TracksStop st] | None => [] end
     ++ [LogError "Error setting up audio stream:"; OnException]).
Proof.
  intros Hc Ha. exec; reflexivity.
Qed.

Lemma acquisition_failure_surfaced_witness :
  isCleanedUp connectingState = false
  /\ isAudioNodesConnected connectingState = false
  /\ onopen exampleEnv 0 byConnect None true connectingState
     = (tt, set_isConnected true connectingState,
        [LogError "Error setting up audio stream:"; OnException]).
Proof.
  split; [reflexivity |]. split; [reflexivity |].
  apply (acquisition_failure_surfaced exampleEnv 0 byConnect true
           connectingState); reflexivity.
Defined.

(** *** C3: the end of a buffer on an empty queue *)

(** C3 (as stated) fails: a frame of one second of audio arrives on a live
    connection and is played at once, which empties the queue; when that
    buffer ends, on the empty queue, no buffer is started, of silence or of
    anything else: the only effect is the notice TTS_PLAYING false. *)
Lemma drained_scheduler_emits_no_silence :
  audioBufferRef playedState = []
  /\ isPlayingAudio playedState = true
  /\ effects (handle secondEnv source_ended) playedState
     = [WsSend 0 (TTS_PLAYING false)]
  /\ ~ (exists audioData,
          In (BufferSourceStart audioData)
             (effects (handle secondEnv source_ended) playedState)).
Proof.
  split; [vm_compute; reflexivity |].
  split; [vm_compute; reflexivity |].
  split; [vm_compute; reflexivity |].
  intros [audioData H]. vm_compute in H.
  destruct H as [H | []]. discriminate H.
Qed.

(** C3 (as the code has it).  When a playback buffer ends and the queue is
    empty, [playNextChunk] is not run and nothing is played: the hook is
    marked not playing, the notice TTS_PLAYING false is sent once, on the
    current socket if there is one, and the queue stays empty.  The current
    socket is taken not to be still connecting, where [send] would throw. *)
Theorem drained_scheduler_stops env s :
  audioBufferRef s = [] ->
  currentReadyState s <> Some CONNECTING ->
  List.filter isBufferSourceStart (effects (sourceEnded env) s) = []
  /\ List.filter isWsSend (effects (sourceEnded env) s)
     = match websocketRef s with
       | Some w => [WsSend w (TTS_PLAYING false)]
       | None => []
       end
  /\ isPlayingAudio (after (sourceEnded env) s) = false
  /\ isPlaying (after (sourceEnded env) s) = false
  /\ lastSentTTSEvent (after (sourceEnded env) s) = false
  /\ audioBufferRef (after (sourceEnded env) s) = [].
Proof.
  intros Hq _. exec; repeat split; try reflexivity; assumption.
Qed.

Lemma drained_scheduler_stops_witness :
  audioBufferRef playedState = []
  /\ currentReadyState playedState <> Some CONNECTING
  /\ List.filter isBufferSourceStart (effects (sourceEnded secondEnv) playedState)
     = []
  /\ isPlaying (after (sourceEnded secondEnv) playedState) = false.
Proof.
  assert (H : audioBufferRef playedState = []) by (vm_compute; reflexivity).
  assert (Hopen : currentReadyState playedState <> Some CONNECTING)
    by (vm_compute; discriminate).
  split; [exact H |]. split; [exact Hopen |].
  destruct (drained_scheduler_stops secondEnv playedState H Hopen)
    as (H1 & _ & _ & H2 & _).
  split; [exact H1 | exact H2].
Defined.


(** *** C7: what a barge frame does *)

(** C7 (as stated) fails: on a live connection, processing a barge frame
    sends no frame at all, so no notice that playback has stopped. *)
Lemma barge_sends_no_notice :
  audioBufferRef queuedState <> []
  /\ currentReadyState queuedState = Some OPEN
  /\ ~ In (WsSend 0 (TTS_PLAYING false))
          (effects (processAudioMessage exampleEnv bargeMessage 1) queuedState)
  /\ List.filter isWsSend
       (effects (processAudioMessage exampleEnv bargeMessage 1) queuedState)
     = [].
Proof.
  cbn. split; [discriminate |]. split; [reflexivity |]. split; [| reflexivity].
  intros [H | []]. discriminate H.
Qed.

Lemma barge_not_media ev : isBarge ev = true -> String.eqb ev "media" = false.
Proof.
  unfold isBarge. intros H. apply orb_true_iff in H as [H | H];
    apply String.eqb_eq in H; subst; reflexivity.
Qed.

(** The barge branch of [processAudioMessage]. *)
Lemma processAudioMessage_barge env message now s :
  isBarge (event message) = true ->
  processAudioMessage env message now s
  = (tt, set_audioBufferRef [] s, [LogInfo "Barged"]).
Proof.
  intros Hb. unfold processAudioMessage.
  rewrite (barge_not_media _ Hb), Hb. reflexivity.
Qed.

(** C7 (as the code has it).  Processing a barge frame empties the queue
    and writes a log line; nothing is sent to the transport and no other
    part of the state changes.  The notice that playback has stopped is
    sent when a playback buffer ends and finds the queue empty. *)
Theorem barge_only_clears_queue env message now s :
  isBarge (event message) = true ->
  processAudioMessage env message now s
  = (tt, set_audioBufferRef [] s, [LogInfo "Barged"])
  /\ forall w,
       websocketRef s = Some w ->
       List.filter isWsSend
         (effects (sourceEnded env) (set_audioBufferRef [] s))
       = [WsSend w (TTS_PLAYING false)].
Proof.
  intros Hb. split.
  - apply processAudioMessage_barge, Hb.
  - intros w Hw. exec; reflexivity.
Qed.

Lemma barge_only_clears_queue_witness :
  isBarge (event bargeMessage) = true
  /\ processAudioMessage exampleEnv bargeMessage 1 queuedState
     = (tt, set_audioBufferRef [] queuedState, [LogInfo "Barged"]).
Proof.
  split; [reflexivity |].
  apply (barge_only_clears_queue exampleEnv bargeMessage 1 queuedState).
  reflexivity.
Defined.

(** *** C9: events of a superseded socket *)

Example reconnectedState_shape :
  websocketRef reconnectedState = Some 1%nat
  /\ sockets reconnectedState
     = [mkWebSocket CLOSING byConnect; mkWebSocket OPEN (byReconnect false)]
  /\ isConnected reconnectedState = true
  /\ isCleanedUp reconnectedState = false
  /\ streamRef reconnectedState = Some 8%nat.
Proof. repeat split; reflexivity. Qed.

(** C9 (code defect).  After [reconnect()] has replaced socket 0 by socket
    1 and socket 1 has opened, the close event of socket 0 runs the
    teardown on the new connection: socket 1 is closed, its stream and
    audio context are released, [isConnected] is reset and the caller is
    told that the server closed the connection. *)
Theorem stale_close_tears_down_new_connection :
  websocketRef reconnectedState = Some 1%nat
  /\ effects (handle exampleEnv staleClose) reconnectedState
     = [WorkletDisconnect; CaptureSourceDisconnect; WsClose 1;
        AudioContextClose; TracksStop 8; OnClose server]
  /\ websocketRef (after (handle exampleEnv staleClose) reconnectedState) = None
  /\ isConnected (after (handle exampleEnv staleClose) reconnectedState) = false
  /\ sockets (after (handle exampleEnv staleClose) reconnectedState)
     = [mkWebSocket CLOSED byConnect; mkWebSocket CLOSING (byReconnect false)].
Proof. repeat split; reflexivity. Qed.

(** The same for the error event of the superseded socket. *)
Example stale_error_tears_down_new_connection :
  List.filter isTeardown (effects (handle exampleEnv (ws_error 0)) reconnectedState)
  = [WorkletDisconnect; CaptureSourceDisconnect; WsClose 1;
     AudioContextClose; TracksStop 8; OnClose server].
Proof. reflexivity. Qed.

(** In general: whenever the marker is clear, the close event of any
    socket, current or not, runs the teardown sequence on the current
    connection. *)
Lemma any_close_tears_down env w reason s x :
  isCleanedUp s = false ->
  sockets s !! w = Some x ->
  List.filter isTeardown (effects (handle env (ws_close w reason)) s)
  = teardownSequence (signalState (ws_close w reason) s) server.
Proof.
  intros Hs Hx.
  apply (first_signal env (ws_close w reason) s Hs).
  - cbn. apply bool_decide_eq_true. exists x. exact Hx.
  - reflexivity.
Qed.


(** *** C6: the queue after a barge frame *)

Create HintDb plumbing.

#[local] Hint Unfold
  getOrCreateAudioContext initializeVisualizer resetAudioInput
  setupAudioStream startProcessing stopProcessing workletMessage
  sourceEnded cleanup connect reconnect newWebSocket
  onopen onclose onerror disconnect
  setupAudioStream_request setupAudioStream_settled
  startProcessing_request startProcessing_settled
  onopen_finish onopen_capture onopen_opened onopen_userMedia onopen_module
  sendCurrent closeCurrent wsClose setReadyState onSocket : plumbing.

#[export] Instance shrinks_composable : Composable shrinks.
Proof.
  split; unfold shrinks.
  - reflexivity.
  - intros s1 s2 s3 _ _ H12 H23. etransitivity; eassumption.
Qed.

Lemma playNextChunk_shrinks env : holds shrinks (playNextChunk env).
Proof.
  intros s. unfold shrinks, playNextChunk, initializeVisualizer.
  exec; first [ reflexivity | assumption | apply sublist_nil_l ].
Qed.

#[local] Hint Resolve playNextChunk_shrinks : kept.

(** Leaves of a [shrinks] goal: an effect, or an update that leaves the
    queue alone or empties it. *)
Ltac shrinks_leaf :=
  first
    [ apply holds_emit; intros ?; unfold shrinks; reflexivity
    | apply holds_modify; intros ?; unfold shrinks; cbn;
      first [ reflexivity | apply sublist_nil_l ] ].

Ltac shrinks_auto :=
  repeat autounfold with plumbing;
  split_action;
  first [ solve [eauto 2 with kept] | shrinks_leaf ].

(** Every event other than an inbound message can only take chunks off
    the queue. *)
Lemma handle_shrinks env e :
  (forall w data now, e <> ws_message w data now) ->
  holds shrinks (handle env e).
Proof.
  intros He. destruct e; cbn [handle]; try (exfalso; eapply He; reflexivity).
  all: shrinks_auto.
Qed.

Lemma processAudioChunk_queue env payload s :
  sublist (audioBufferRef (after (processAudioChunk env payload) s))
          (audioBufferRef s
           ++ option_list (decodeChunk env (backendSampleRate s) payload)).
Proof.
  unfold processAudioChunk.
  rewrite !after_bind.
  set (s1 := after getOrCreateAudioContext s).
  assert (Hq : audioBufferRef s1 = audioBufferRef s
               /\ backendSampleRate s1 = backendSampleRate s).
  { unfold s1. exec; split; reflexivity. }
  destruct Hq as [Hq Hr].
  cbn [read value after fst snd]. rewrite Hr.
  destruct (decodeChunk env (backendSampleRate s) payload) as [chunk |];
    cbn [option_list].
  - rewrite !after_bind. cbn [read modify value after fst snd].
    match goal with
    | |- context [if ?b then _ else _] => destruct b
    end.
    + rewrite after_bind.
      match goal with
      | |- context [after (match ?c with _ => _ end) ?s'] =>
          replace (after (match c with
                          | normal => skip
                          | thrown => emit (LogError "Error processing audio chunk:")
                          end) s')
            with s' by (destruct c; reflexivity)
      end.
      etransitivity; [apply playNextChunk_shrinks |]. cbn. rewrite Hq. reflexivity.
    + cbn. rewrite Hq. reflexivity.
  - cbn. rewrite Hq, app_nil_r. reflexivity.
Qed.

Lemma processAudioMessage_queue env message now s :
  sublist (audioBufferRef (after (processAudioMessage env message now) s))
          (audioBufferRef s ++ option_list (messageChunk env message)).
Proof.
  unfold processAudioMessage, messageChunk.
  destruct (String.eqb (event message) "media" && truthy_opt (payload message)).
  - rewrite !after_bind.
    set (s1 := after (modify (set_backendSampleRate
                                (default SAMPLE_RATE (sample_rate message)))) _).
    assert (Hq : audioBufferRef s1 = audioBufferRef s
                 /\ backendSampleRate s1 = default SAMPLE_RATE (sample_rate message)).
    { unfold s1, after, bind, read, modify. cbn.
      destruct (chunkReceivedAt s =? 0); split; reflexivity. }
    destruct Hq as [Hq Hr]. rewrite <- Hq, <- Hr.
    apply processAudioChunk_queue.
  - cbn [option_list]. rewrite app_nil_r.
    unfold sendCurrent.
    exec; first [ reflexivity | apply sublist_nil_l ].
Qed.

(** One event: the queue after it is drawn, in order, from the queue
    before it and the chunk the event carries. *)
Lemma handle_queue env e s :
  sublist (audioBufferRef (after (handle env e) s))
          (audioBufferRef s ++ eventChunks env e).
Proof.
  destruct e as [| | | | | | w data now | | | | | | | | |];
    try (cbn [eventChunks]; rewrite app_nil_r;
         apply handle_shrinks; intros; discriminate).
  cbn [handle]. unfold onSocket, onmessage.
  rewrite after_bind. cbn [read value after fst snd].
  destruct (sockets s !! w) as [x |]; [| apply sublist_inserts_r; reflexivity].
  rewrite after_bind. cbn [read value after fst snd].
  destruct (isCleanedUp s); [apply sublist_inserts_r; reflexivity |].
  destruct data as [| | message]; cbn [eventChunks].
  - rewrite app_nil_r. destruct (handlers x); reflexivity.
  - rewrite app_nil_r. reflexivity.
  - apply processAudioMessage_queue.
Qed.

Lemma run_queue env events s :
  sublist (audioBufferRef (after (run env events) s))
          (audioBufferRef s ++ concat (map (eventChunks env) events)).
Proof.
  revert s. induction events as [| e events IH]; intros s.
  - cbn. rewrite app_nil_r. reflexivity.
  - rewrite after_run_cons. cbn [map concat].
    etransitivity; [apply IH |].
    rewrite app_assoc. apply sublist_app; [apply handle_queue | reflexivity].
Qed.

(** C6.  Whatever the queue holds, processing a barge (or BARGE) frame
    leaves it empty, with no samples queued; and whatever events follow,
    the queue is drawn, in order, from the chunks of the media frames that
    arrived after the barge. *)
Theorem barge_empties_queue env message now s events :
  isBarge (event message) = true ->
  audioBufferRef (after (processAudioMessage env message now) s) = []
  /\ queuedSamples
       (audioBufferRef (after (processAudioMessage env message now) s)) = 0
  /\ sublist
       (audioBufferRef
          (after (run env events)
                 (after (processAudioMessage env message now) s)))
       (concat (map (eventChunks env) events)).
Proof.
  intros Hb. set (s1 := after (processAudioMessage env message now) s).
  assert (Hq : audioBufferRef s1 = []).
  { unfold s1, after.
    rewrite (processAudioMessage_barge env message now s Hb).
    reflexivity. }
  split; [exact Hq |]. split; [rewrite Hq; reflexivity |].
  pose proof (run_queue env events s1) as H. rewrite Hq in H. exact H.
Qed.


Lemma barge_empties_queue_witness :
  isBarge (event bargeMessage) = true
  /\ audioBufferRef queuedState <> []
  /\ audioBufferRef
       (after (processAudioMessage exampleEnv bargeMessage 2) queuedState) = [].
Proof.
  split; [reflexivity |]. split; [discriminate |].
  apply (barge_empties_queue exampleEnv bargeMessage 2 queuedState []).
  reflexivity.
Defined.

(** A barge frame followed by a media frame: only the new chunk is
    queued. *)
Example barge_then_media :
  audioBufferRef
    (after (run exampleEnv [ws_message 0 (parsed bargeMessage) 2;
                            ws_message 0 (parsed mediaMessage) 3])
           queuedState)
  = [[0 # 32767; 1 # 32767]%Q].
Proof. reflexivity. Qed.

(** *** C8: a stop frame closes the socket only when playback has drained *)

#[local] Hint Unfold stopPending : invariants.


Lemma processAudioMessage_stopPending env w message now :
  holds (keeps (stopPending w) isWsClose) (processAudioMessage env message now).
Proof. keeps_auto. Qed.









(** With a stop pending and a chunk queued, the end of a buffer does not
    close the socket: the chunk is played. *)
Example stop_with_chunk_queued :
  List.filter isWsClose
    (effects (handle exampleEnv source_ended)
             (afterStop exampleEnv stopMessage 2 [] queuedState)) = []
  /\ List.filter isBufferSourceStart
       (effects (handle exampleEnv source_ended)
                (afterStop exampleEnv stopMessage 2 [] queuedState))
     = [BufferSourceStart [0 # 32767; 1 # 32767]%Q]
  /\ effects (run exampleEnv [source_ended; source_ended])
             (afterStop exampleEnv stopMessage 2 [] queuedState)
     = [WsSend 0 (TTS_PLAYING true);
        BufferSourceStart [0 # 32767; 1 # 32767]%Q;
        WsSend 0 (TTS_PLAYING false); WsClose 0].
Proof. repeat split; reflexivity. Qed.


(* --------------------------------------------------------------------- *)
(** *** The dequeue loop and the start of playback *)

Lemma queuedSamples_from (queue : list (list Q)) (acc : Z) :
  fold_left (fun acc chunk => acc + Z.of_nat (length chunk)) queue acc
  = acc + queuedSamples queue.
Proof.
  unfold queuedSamples. revert acc.
  induction queue as [| chunk rest IH]; intros acc; cbn [fold_left].
  - lia.
  - rewrite (IH (acc + _)), (IH (0 + _)). lia.
Qed.

Lemma queuedSamples_cons (chunk : list Q) (queue : list (list Q)) :
  queuedSamples (chunk :: queue) = Z.of_nat (length chunk) + queuedSamples queue.
Proof.
  unfold queuedSamples at 1. cbn [fold_left]. apply queuedSamples_from.
Qed.

Lemma queuedSamples_concat (queue : list (list Q)) :
  queuedSamples queue = Z.of_nat (length (concat queue)).
Proof.
  induction queue as [| chunk rest IH]; [reflexivity |].
  rewrite queuedSamples_cons, IH. cbn [concat]. rewrite length_app. lia.
Qed.

Lemma queuedSamples_nonneg (queue : list (list Q)) : 0 <= queuedSamples queue.
Proof. rewrite queuedSamples_concat. lia. Qed.

Lemma takeChunks_cons chunk rest total :
  takeChunks (chunk :: rest) total
  = if total <? bufferSize then
      (chunk :: fst (takeChunks rest (total + Z.of_nat (length chunk))),
       snd (takeChunks rest (total + Z.of_nat (length chunk))))
    else ([], chunk :: rest).
Proof.
  unfold takeChunks; fold takeChunks.
  destruct (total <? bufferSize); [| reflexivity].
  destruct (takeChunks rest (total + Z.of_nat (length chunk))). reflexivity.
Qed.

Lemma takeChunks_split queue total :
  fst (takeChunks queue total) ++ snd (takeChunks queue total) = queue.
Proof.
  revert total. induction queue as [| chunk rest IH]; intros total.
  - reflexivity.
  - rewrite takeChunks_cons. destruct (total <? bufferSize); [| reflexivity].
    cbn [fst snd app]. rewrite IH. reflexivity.
Qed.

Lemma takeChunks_enough queue total :
  bufferSize <= total + queuedSamples (fst (takeChunks queue total))
  \/ snd (takeChunks queue total) = [].
Proof.
  revert total. induction queue as [| chunk rest IH]; intros total.
  - right. reflexivity.
  - rewrite takeChunks_cons. destruct (total <? bufferSize) eqn:Hlt.
    + cbn [fst snd]. rewrite queuedSamples_cons.
      destruct (IH (total + Z.of_nat (length chunk))) as [H | H];
        [left; lia | right; exact H].
    + apply Z.ltb_ge in Hlt. left. cbn [fst].
      change (queuedSamples []) with 0. lia.
Qed.

Lemma takeChunks_minimal queue total taken last :
  fst (takeChunks queue total) = taken ++ [last] ->
  total + queuedSamples taken < bufferSize.
Proof.
  revert total taken. induction queue as [| chunk rest IH]; intros total taken H.
  - destruct taken; discriminate H.
  - rewrite takeChunks_cons in H. destruct (total <? bufferSize) eqn:Hlt.
    + apply Z.ltb_lt in Hlt. cbn [fst] in H.
      destruct taken as [| c taken].
      * change (queuedSamples []) with 0. lia.
      * cbn [app] in H. injection H as <- H.
        rewrite queuedSamples_cons.
        specialize (IH _ _ H). lia.
    + destruct taken; discriminate H.
Qed.

(** X14.  The dequeue loop of [playNextChunk] splits the queue in two: the
    chunks taken, oldest first, and the rest.  It takes a second of audio
    ([bufferSize] samples) or more whenever that much is queued, else the
    whole queue; and it stops as soon as it has enough: without the last
    chunk taken, the total is below [bufferSize]. *)
Theorem takeChunks_takes_one_second (queue : list (list Q)) :
  fst (takeChunks queue 0) ++ snd (takeChunks queue 0) = queue
  /\ (bufferSize <= queuedSamples queue ->
      bufferSize <= queuedSamples (fst (takeChunks queue 0)))
  /\ (queuedSamples queue < bufferSize -> snd (takeChunks queue 0) = [])
  /\ (forall taken last,
        fst (takeChunks queue 0) = taken ++ [last] ->
        queuedSamples taken < bufferSize).
Proof.
  pose proof (takeChunks_split queue 0) as Hsplit.
  pose proof (takeChunks_enough queue 0) as Henough.
  assert (Hsum : queuedSamples queue
                 = queuedSamples (fst (takeChunks queue 0))
                   + queuedSamples (snd (takeChunks queue 0))).
  { rewrite <- Hsplit at 1. rewrite !queuedSamples_concat, concat_app, length_app.
    lia. }
  split; [exact Hsplit |]. split; [| split].
  - intros Hq. destruct Henough as [H | H]; [lia |].
    rewrite H in Hsum. change (queuedSamples []) with 0 in Hsum. lia.
  - intros Hq. destruct Henough as [H | H]; [| exact H].
    pose proof (queuedSamples_nonneg (snd (takeChunks queue 0))). lia.
  - intros taken last H. apply (takeChunks_minimal queue 0 taken last H).
Qed.

(** The chunks taken hold no sample exactly when the queue holds none. *)
Lemma takeChunks_no_sample queue :
  concat (fst (takeChunks queue 0)) = [] <-> concat queue = [].
Proof.
  pose proof (takeChunks_split queue 0) as Hsplit.
  split; intros H.
  - pose proof (takeChunks_enough queue 0) as [Hge | Hrest].
    + rewrite queuedSamples_concat, H in Hge. cbn in Hge.
      unfold bufferSize, SAMPLE_RATE, CHANNELS, BUFFER_DURATION in Hge. lia.
    + rewrite Hrest, app_nil_r in Hsplit. rewrite <- Hsplit. exact H.
  - rewrite <- Hsplit, concat_app in H. apply app_eq_nil in H. apply H.
Qed.

(** [playNextChunk] with chunks queued and nothing playing. *)
Lemma playNextChunk_idle env s :
  isPlayingAudio s = false ->
  audioBufferRef s <> [] ->
  List.filter isBufferSourceStart (effects (playNextChunk env) s)
  = match concat (fst (takeChunks (audioBufferRef s) 0)) with
    | [] => []
    | sample :: samples => [BufferSourceStart (sample :: samples)]
    end
  /\ value (playNextChunk env) s
     = match concat (fst (takeChunks (audioBufferRef s) 0)) with
       | [] => thrown
       | _ :: _ => normal
       end
  /\ audioBufferRef (after (playNextChunk env) s)
     = snd (takeChunks (audioBufferRef s) 0)
  /\ isPlayingAudio (after (playNextChunk env) s) = true
  /\ isPlaying (after (playNextChunk env) s) = true
  /\ lastSentTTSEvent (after (playNextChunk env) s) = true
  /\ List.filter isWsSend (effects (playNextChunk env) s)
     = match websocketRef s with
       | Some w => if lastSentTTSEvent s then []
                   else [WsSend w (TTS_PLAYING true)]
       | None => []
       end.
Proof.
  intros Hp Hq. unfold playNextChunk, initializeVisualizer.
  destruct (audioBufferRef s) as [| chunk rest] eqn:Hqueue; [contradiction |].
  destruct (takeChunks (chunk :: rest) 0) as [taken remaining] eqn:Htake.
  cbn [fst snd].
  destruct (concat taken) as [| sample samples] eqn:Htaken;
    exec; repeat split; reflexivity.
Qed.

(** X15.  [playNextChunk] with nothing playing, a queue that is not empty
    and a current socket that is not still connecting (on which [send]
    would throw).  The hook is marked playing, the rest of the queue stays
    queued, and the notice TTS_PLAYING true is sent unless the last notice
    sent was already true.  If some queued chunk holds a sample, exactly one
    buffer is started: the oldest queued samples, in order, at least one
    sample and a second or more of them when that much is queued.  If every
    queued chunk is empty, the buffer cannot be created: the function
    throws, no buffer is started, the queue is left empty and
    [isPlayingAudio] stays set. *)
Theorem playNextChunk_plays_oldest env s :
  isPlayingAudio s = false ->
  audioBufferRef s <> [] ->
  currentReadyState s <> Some CONNECTING ->
  (concat (audioBufferRef s) <> [] ->
   exists audioData,
     List.filter isBufferSourceStart (effects (playNextChunk env) s)
     = [BufferSourceStart audioData]
     /\ audioData <> []
     /\ audioData ++ concat (audioBufferRef (after (playNextChunk env) s))
        = concat (audioBufferRef s)
     /\ (bufferSize <= queuedSamples (audioBufferRef s) ->
         bufferSize <= Z.of_nat (length audioData))
     /\ value (playNextChunk env) s = normal)
  /\ (concat (audioBufferRef s) = [] ->
      value (playNextChunk env) s = thrown
      /\ List.filter isBufferSourceStart (effects (playNextChunk env) s) = []
      /\ audioBufferRef (after (playNextChunk env) s) = [])
  /\ isPlayingAudio (after (playNextChunk env) s) = true
  /\ isPlaying (after (playNextChunk env) s) = true
  /\ List.filter isWsSend (effects (playNextChunk env) s)
     = match websocketRef s with
       | Some w => if lastSentTTSEvent s then []
                   else [WsSend w (TTS_PLAYING true)]
       | None => []
       end.
Proof.
  intros Hp Hq _.
  destruct (playNextChunk_idle env s Hp Hq)
    as (Hstart & Hvalue & Hrest & H1 & H2 & _ & Hsend).
  pose proof (takeChunks_no_sample (audioBufferRef s)) as Hnone.
  pose proof (takeChunks_split (audioBufferRef s) 0) as Hsplit.
  split; [| split; [| split; [exact H1 | split; [exact H2 | exact Hsend]]]].
  - intros Hsome. rewrite Hrest.
    destruct (concat (fst (takeChunks (audioBufferRef s) 0)))
      as [| sample samples] eqn:Htaken.
    { exfalso. apply Hsome, Hnone. reflexivity. }
    exists (sample :: samples).
    split; [exact Hstart |]. split; [discriminate |].
    split; [| split; [| exact Hvalue]].
    + rewrite <- Htaken, <- concat_app, Hsplit. reflexivity.
    + intros Hfull. rewrite <- Htaken, <- queuedSamples_concat.
      pose proof (takeChunks_enough (audioBufferRef s) 0) as [H | H]; [lia |].
      rewrite H, app_nil_r in Hsplit. rewrite Hsplit. exact Hfull.
  - intros Hempty. rewrite Hrest. apply Hnone in Hempty.
    rewrite Hempty in Hvalue, Hstart.
    split; [exact Hvalue |]. split; [exact Hstart |].
    pose proof (takeChunks_enough (audioBufferRef s) 0) as [Hge | H];
      [| exact H].
    rewrite queuedSamples_concat, Hempty in Hge. cbn in Hge.
    unfold bufferSize, SAMPLE_RATE, CHANNELS, BUFFER_DURATION in Hge. lia.
Qed.

Lemma playNextChunk_plays_oldest_witness :
  isPlayingAudio queuedState = false
  /\ audioBufferRef queuedState <> []
  /\ currentReadyState queuedState <> Some CONNECTING
  /\ isPlayingAudio (after (playNextChunk exampleEnv) queuedState) = true
  /\ isPlaying (after (playNextChunk exampleEnv) queuedState) = true.
Proof.
  assert (H1 : isPlayingAudio queuedState = false) by reflexivity.
  assert (H2 : audioBufferRef queuedState <> []) by discriminate.
  assert (H3 : currentReadyState queuedState <> Some CONNECTING) by discriminate.
  split; [exact H1 |]. split; [exact H2 |]. split; [exact H3 |].
  destruct (playNextChunk_plays_oldest exampleEnv queuedState H1 H2 H3)
    as (_ & _ & Hp & Hq & _).
  split; [exact Hp | exact Hq].
Defined.

(* --------------------------------------------------------------------- *)
(** *** One audio context at a time *)

Lemma contextLive_app live o1 o2 :
  contextLive live (o1 ++ o2)
  = match contextLive live o1 with
    | Some live' => contextLive live' o2
    | None => None
    end.
Proof.
  revert live. induction o1 as [| e o1 IH]; intros live; [reflexivity |].
  destruct e, live; cbn [app contextLive]; auto.
Qed.

#[export] Instance tracksContext_composable : Composable tracksContext.
Proof.
  split.
  - intros s. reflexivity.
  - intros s1 s2 s3 o1 o2 H12 H23. unfold tracksContext in *.
    rewrite contextLive_app, H12. exact H23.
Qed.

Lemma getOrCreateAudioContext_tracks :
  holds tracksContext getOrCreateAudioContext.
Proof.
  intros s. unfold tracksContext, getOrCreateAudioContext, after, effects,
    bind, read, emit, modify, skip, ret.
  cbn. destruct (audioContextRef s) eqn:Hctx; cbn; rewrite ?Hctx; reflexivity.
Qed.

(** The block of [cleanup] and of [reconnect] that closes the context. *)
Lemma closeContext_tracks :
  holds tracksContext
    (bind (read audioContextRef) (fun ctx =>
       if ctx then
         bind (emit AudioContextClose)
              (fun _ => modify (set_audioContextRef false))
       else skip)).
Proof.
  intros s. unfold tracksContext, after, effects,
    bind, read, emit, modify, skip, ret.
  cbn. destruct (audioContextRef s) eqn:Hctx; cbn; rewrite ?Hctx; reflexivity.
Qed.

Create HintDb flow.

#[local] Hint Unfold
  initializeVisualizer resetAudioInput
  setupAudioStream startProcessing stopProcessing workletMessage
  playNextChunk sourceEnded processAudioChunk processAudioMessage
  cleanup connect reconnect newWebSocket
  onopen onmessage onclose onerror disconnect
  setupAudioStream_request setupAudioStream_settled
  startProcessing_request startProcessing_settled
  onopen_finish onopen_capture onopen_opened onopen_userMedia onopen_module
  sendCurrent closeCurrent wsClose setReadyState onSocket : flow.

(** Decompose an action down to the blocks that create or close the
    context; the other leaves do not touch it. *)
Ltac tracks_step :=
  match goal with
  | |- holds _ getOrCreateAudioContext => apply getOrCreateAudioContext_tracks
  | |- holds _ (bind (read audioContextRef) _) => apply closeContext_tracks
  | |- holds _ skip => apply holds_skip; solve [typeclasses eauto]
  | |- holds _ (ret _) => apply holds_ret; solve [typeclasses eauto]
  | |- holds _ (read _) => apply holds_read; solve [typeclasses eauto]
  | |- holds _ (bind _ _) =>
      apply holds_bind; [solve [typeclasses eauto] | | intros ?]
  | |- holds _ (if ?b then _ else _) => destruct b
  | |- holds _ (match ?x with _ => _ end) => destruct x
  | |- holds _ (emit _) =>
      apply holds_emit; intros ?; reflexivity
  | |- holds _ (modify _) => apply holds_modify; intros ?; reflexivity
  end.

Lemma handle_tracks env e : holds tracksContext (handle env e).
Proof.
  destruct e; cbn [handle]; repeat autounfold with flow; repeat tracks_step.
Qed.

(** X20.  The hook never holds two audio contexts.  Over any events, from any
    state: a context is created only when none is live, closed only when one
    is, and [audioContextRef] holds a context exactly when one is live. *)
Theorem one_audio_context env events s :
  contextLive (audioContextRef s) (effects (run env events) s)
  = Some (audioContextRef (after (run env events) s)).
Proof.
  apply (holds_run tracksContext env events).
  apply Forall_forall. intros e _. apply handle_tracks.
Qed.

(* --------------------------------------------------------------------- *)
(** *** Inbound frames *)

(** While a buffer plays, [playNextChunk] returns at once. *)
Lemma playNextChunk_playing env :
  holds (keeps (fun s => isPlayingAudio s = true) isBufferSourceStart)
        (playNextChunk env).
Proof.
  intros s Hs. exec; split; reflexivity || assumption.
Qed.

Create HintDb dispatch.

#[local] Hint Unfold
  processAudioChunk processAudioMessage onmessage onSocket
  sendCurrent getOrCreateAudioContext : dispatch.

Lemma message_playing env w data now :
  holds (keeps (fun s => isPlayingAudio s = true) isBufferSourceStart)
        (handle env (ws_message w data now)).
Proof.
  cbn [handle]. repeat autounfold with dispatch. split_action;
    first [ apply playNextChunk_playing | keeps_leaf ].
Qed.

(** X17.  No second buffer is started while one plays: whatever frames arrive
    while [isPlayingAudio] is set, no playback buffer is started and the
    flag stays set.  Chunks wait in the queue for the end of the buffer. *)
Theorem frames_wait_for_playback env events s :
  isPlayingAudio s = true ->
  Forall (fun e => isInbound e = true) events ->
  List.filter isBufferSourceStart (effects (run env events) s) = []
  /\ isPlayingAudio (after (run env events) s) = true.
Proof.
  intros Hs Hev.
  assert (H : holds (keeps (fun s => isPlayingAudio s = true) isBufferSourceStart)
                    (run env events)).
  { apply holds_run; [typeclasses eauto |].
    eapply Forall_impl; [exact Hev |].
    intros [] He; try discriminate He. apply message_playing. }
  destruct (H s Hs) as [H1 H2]. split; assumption.
Qed.

Lemma message_connection env r c b w data now :
  holds (keeps (fun s => websocketRef s = r /\ isCleanedUp s = c
                         /\ isConnected s = b)
               isTeardown)
        (handle env (ws_message w data now)).
Proof.
  cbn [handle]. keeps_auto.
Qed.

(** X18.  Inbound frames alone never end the connection.  Whatever frames
    arrive (media, barge, EOC, stop, unknown, unparsable), handling them
    releases nothing, closes no socket and does not call onClose; the
    current socket, the teardown marker and [isConnected] are as before. *)
Theorem frames_never_tear_down env events s :
  Forall (fun e => isInbound e = true) events ->
  List.filter isTeardown (effects (run env events) s) = []
  /\ websocketRef (after (run env events) s) = websocketRef s
  /\ isCleanedUp (after (run env events) s) = isCleanedUp s
  /\ isConnected (after (run env events) s) = isConnected s.
Proof.
  intros Hev.
  assert (H : holds (keeps (fun s' => websocketRef s' = websocketRef s
                                      /\ isCleanedUp s' = isCleanedUp s
                                      /\ isConnected s' = isConnected s)
                           isTeardown)
                    (run env events)).
  { apply holds_run; [typeclasses eauto |].
    eapply Forall_impl; [exact Hev |].
    intros [] He; try discriminate He. apply message_connection. }
  destruct (H s (conj eq_refl (conj eq_refl eq_refl))) as [(H1 & H2 & H3) H4].
  repeat split; assumption.
Qed.

(* --------------------------------------------------------------------- *)
(** *** The awaits, when nothing happens in between *)

(** [setupAudioStream] is its two parts, one after the other. *)
Lemma setupAudioStream_phases env userMedia s :
  setupAudioStream env userMedia s
  = bind setupAudioStream_request (fun awaited =>
      if awaited then setupAudioStream_settled env userMedia else ret normal) s.
Proof. destruct userMedia; exec; reflexivity. Qed.

(** [startProcessing] is its two parts, one after the other. *)
Lemma startProcessing_phases moduleLoaded s :
  startProcessing moduleLoaded s
  = bind startProcessing_request (fun awaited =>
      if awaited then startProcessing_settled moduleLoaded else skip) s.
Proof. destruct moduleLoaded; exec; reflexivity. Qed.

(** [onopen] is the open handler resumed at once at each of its awaits. *)
Lemma onopen_phases env w h userMedia moduleLoaded s :
  onopen env w h userMedia moduleLoaded s
  = onopen_uninterrupted env w h userMedia moduleLoaded s.
Proof.
  unfold onopen_uninterrupted.
  destruct userMedia, moduleLoaded, h as [| []]; exec; reflexivity.
Qed.

(* --------------------------------------------------------------------- *)
(** *** After teardown *)

Lemma inert_step env e :
  isReconnect e = false ->
  isResumption e = false ->
  holds (keeps tornDownState isActivity) (handle env e).
Proof.
  intros He Hr s Hs.
  destruct e; try discriminate He; try discriminate Hr; cbn [handle];
    [ unfold after, effects; rewrite (connect_cleaned_up env s (proj1 Hs));
      split; [exact Hs | reflexivity] | .. ];
    unfold tornDownState in *;
    destruct Hs as (H1 & H2 & H3 & H4 & H5 & H6 & H7 & H8 & H9 & H10 & H11 & H12);
    unfold disconnect; exec; repeat split; congruence.
Qed.

(** X19.  A torn-down hook is inert, but for what was already awaited.
    Once the hook is torn down, whatever events follow other than
    [reconnect()] and the resumption of an open handler that was suspended
    at an await (API calls, open, close, error and message events of old
    sockets, playback and capture callbacks, [startRecording()] and its
    resumption), it sends nothing, starts no playback, creates no socket,
    context, analyzer or capture node, and does not call onClose again; it
    stays torn down.  All it may still do is close a socket that opens
    late, log, report an error and reload on an expired link.  What a
    resumed open handler does is [acquisition_outlives_teardown]. *)
Theorem inert_after_teardown env events s :
  tornDownState s ->
  Forall (fun e => isReconnect e = false /\ isResumption e = false) events ->
  List.filter isActivity (effects (run env events) s) = []
  /\ tornDownState (after (run env events) s).
Proof.
  intros Hs Hev.
  assert (H : holds (keeps tornDownState isActivity) (run env events)).
  { apply holds_run; [typeclasses eauto |].
    eapply Forall_impl; [exact Hev |].
    intros e [He Hr]. apply inert_step; assumption. }
  destruct (H s Hs) as [H1 H2]. split; assumption.
Qed.

#[local] Hint Unfold heldAfterTeardown : invariants.

Lemma held_step env st e :
  isTeardownSignal e = true ->
  holds (keeps (heldAfterTeardown st) isTeardown) (handle env e).
Proof.
  intros He. destruct e; try discriminate He; cbn [handle].
  - intros s Hs. unfold heldAfterTeardown in *.
    destruct Hs as (H1 & H2 & H3 & H4 & H5).
    unfold disconnect; exec; repeat split; congruence.
  - intros s Hs. unfold heldAfterTeardown in *.
    destruct Hs as (H1 & H2 & H3 & H4 & H5).
    exec; repeat split; congruence.
  - intros s Hs. unfold heldAfterTeardown in *.
    destruct Hs as (H1 & H2 & H3 & H4 & H5).
    exec; repeat split; congruence.
Qed.

(** X25.  What is awaited outlives the teardown.  The open handler tests
    the teardown marker once, before its awaits.  If the hook is torn down
    while [getUserMedia] is pending and the microphone is then granted, the
    resumed handler keeps the stream, creates an audio context and marks the
    capture nodes connected, with the marker still set; and since the marker
    is set, no later [disconnect()], close or error event releases them: the
    stream and the context stay held and nothing is released.  (Stated for
    a hook without an analyzer, so that nothing depends on what a destroyed
    analyzer does when given an input.) *)
Theorem acquisition_outlives_teardown env w x st s events :
  tornDownState s ->
  analyzerRef s = false ->
  sockets s !! w = Some x ->
  Forall (fun e => isTeardownSignal e = true) events ->
  heldAfterTeardown st (after (handle env (userMedia_settles w (Some st))) s)
  /\ isAudioNodesConnected (after (handle env (userMedia_settles w (Some st))) s)
     = true
  /\ In NewAudioContext (effects (handle env (userMedia_settles w (Some st))) s)
  /\ heldAfterTeardown st
       (after (run env (userMedia_settles w (Some st) :: events)) s)
  /\ List.filter isTeardown
       (effects (run env (userMedia_settles w (Some st) :: events)) s) = [].
Proof.
  intros Hs Han Hw Hev.
  assert (Hfirst :
    heldAfterTeardown st (after (handle env (userMedia_settles w (Some st))) s)
    /\ isAudioNodesConnected
         (after (handle env (userMedia_settles w (Some st))) s) = true
    /\ In NewAudioContext
         (effects (handle env (userMedia_settles w (Some st))) s)
    /\ List.filter isTeardown
         (effects (handle env (userMedia_settles w (Some st))) s) = []).
  { unfold tornDownState, heldAfterTeardown in *.
    destruct Hs as (H1 & H2 & H3 & H4 & H5 & H6 & H7 & H8 & H9 & H10 & H11 & H12).
    cbn [handle]. unfold onSocket.
    exec; repeat split; try reflexivity; try congruence; cbn; auto. }
  destruct Hfirst as (Hheld & Hnodes & Hctx & Hquiet).
  assert (Hrest : holds (keeps (heldAfterTeardown st) isTeardown)
                        (run env events)).
  { apply holds_run; [typeclasses eauto |].
    eapply Forall_impl; [exact Hev |].
    intros e He. apply held_step, He. }
  destruct (Hrest _ Hheld) as [Hheld' Hquiet'].
  split; [exact Hheld |]. split; [exact Hnodes |]. split; [exact Hctx |].
  rewrite after_run_cons, effects_run_cons, List.filter_app, Hquiet, Hquiet'.
  split; [exact Hheld' | reflexivity].
Qed.

Lemma acquisition_outlives_teardown_witness :
  tornDownState closedWhilePrompting
  /\ analyzerRef closedWhilePrompting = false
  /\ sockets closedWhilePrompting !! 0%nat = Some (mkWebSocket CLOSING byConnect)
  /\ Forall (fun e => isTeardownSignal e = true) teardownSignals
  /\ heldAfterTeardown 7
       (after (run exampleEnv (userMedia_settles 0 (Some 7%nat) :: teardownSignals))
              closedWhilePrompting).
Proof.
  assert (H1 : tornDownState closedWhilePrompting)
    by (unfold tornDownState; repeat split; reflexivity).
  assert (H2 : sockets closedWhilePrompting !! 0%nat
               = Some (mkWebSocket CLOSING byConnect)) by reflexivity.
  assert (H3 : Forall (fun e => isTeardownSignal e = true) teardownSignals)
    by (repeat constructor).
  split; [exact H1 |]. split; [reflexivity |].
  split; [exact H2 |]. split; [exact H3 |].
  exact (proj1 (proj2 (proj2 (proj2
           (acquisition_outlives_teardown exampleEnv 0%nat _ 7%nat
              closedWhilePrompting teardownSignals H1 eq_refl H2 H3))))).
Defined.


Lemma frames_wait_for_playback_witness :
  isPlayingAudio playingState = true
  /\ Forall (fun e => isInbound e = true) inboundFrames
  /\ List.filter isBufferSourceStart
       (effects (run exampleEnv inboundFrames) playingState) = []
  /\ isPlayingAudio (after (run exampleEnv inboundFrames) playingState) = true.
Proof.
  assert (H1 : isPlayingAudio playingState = true) by reflexivity.
  assert (H2 : Forall (fun e => isInbound e = true) inboundFrames)
    by (repeat constructor).
  split; [exact H1 |]. split; [exact H2 |].
  exact (frames_wait_for_playback exampleEnv inboundFrames playingState H1 H2).
Defined.

Lemma frames_never_tear_down_witness :
  Forall (fun e => isInbound e = true) inboundFrames
  /\ List.filter isTeardown (effects (run exampleEnv inboundFrames) liveState) = []
  /\ websocketRef (after (run exampleEnv inboundFrames) liveState)
     = websocketRef liveState
  /\ isCleanedUp (after (run exampleEnv inboundFrames) liveState)
     = isCleanedUp liveState
  /\ isConnected (after (run exampleEnv inboundFrames) liveState)
     = isConnected liveState.
Proof.
  assert (H : Forall (fun e => isInbound e = true) inboundFrames)
    by (repeat constructor).
  split; [exact H |].
  exact (frames_never_tear_down exampleEnv inboundFrames liveState H).
Defined.

Lemma inert_after_teardown_witness :
  tornDownState closedState
  /\ Forall (fun e => isReconnect e = false /\ isResumption e = false) laterEvents
  /\ List.filter isActivity (effects (run exampleEnv laterEvents) closedState) = []
  /\ tornDownState (after (run exampleEnv laterEvents) closedState).
Proof.
  assert (H1 : tornDownState closedState)
    by (unfold tornDownState; repeat split; reflexivity).
  assert (H2 : Forall (fun e => isReconnect e = false /\ isResumption e = false)
                      laterEvents)
    by (repeat constructor).
  split; [exact H1 |]. split; [exact H2 |].
  exact (inert_after_teardown exampleEnv laterEvents closedState H1 H2).
Defined.

(* --------------------------------------------------------------------- *)
(** *** [connect] and [reconnect] *)

Lemma connect_cases env s :
  connect env s
  = if negb (truthy (websocketUrl env)) || bool_decide (is_Some (websocketRef s))
       || isCleanedUp s || isConnected s
    then (tt, s, [])
    else (tt,
          set_websocketRef (Some (length (sockets s)))
            (set_sockets (sockets s ++ [mkWebSocket CONNECTING byConnect])
               (set_isFirstChunk true (set_isCleanedUp false s))),
          [NewWebSocket (length (sockets s))]).
Proof.
  unfold connect, newWebSocket, bind, read, modify, emit, skip, ret.
  destruct (negb (truthy (websocketUrl env))
            || bool_decide (is_Some (websocketRef s))
            || isCleanedUp s || isConnected s); reflexivity.
Qed.

(** A second [connect()] returns at once. *)
Lemma connect_again env s :
  connect env (after (connect env) s) = (tt, after (connect env) s, []).
Proof.
  unfold after. rewrite (connect_cases env s).
  destruct (negb (truthy (websocketUrl env))
            || bool_decide (is_Some (websocketRef s))
            || isCleanedUp s || isConnected s) eqn:Hguard; cbn [fst snd].
  - rewrite connect_cases, Hguard. reflexivity.
  - rewrite connect_cases. cbn [websocketRef set_websocketRef].
    rewrite bool_decide_eq_true_2 by (eexists; reflexivity).
    rewrite orb_true_r. reflexivity.
Qed.

(** X21.  Repeated [connect()] calls do what one call does: the state and the
    effects of any number of calls in a row are those of the first, which
    creates at most one socket. *)
Theorem connect_at_most_once env n s :
  after (run env (repeat call_connect (S n))) s = after (connect env) s
  /\ effects (run env (repeat call_connect (S n))) s = effects (connect env) s
  /\ (length (List.filter isNewWebSocket (effects (connect env) s)) <= 1)%nat.
Proof.
  split; [| split].
  - revert s. induction n as [| n IH]; intros s.
    + cbn [repeat]. rewrite after_run_cons. reflexivity.
    + change (repeat call_connect (S (S n)))
        with (call_connect :: repeat call_connect (S n)).
      rewrite after_run_cons, IH. cbn [handle].
      unfold after at 1. rewrite connect_again. reflexivity.
  - revert s. induction n as [| n IH]; intros s.
    + cbn [repeat]. rewrite effects_run_cons. cbn [handle run].
      apply app_nil_r.
    + change (repeat call_connect (S (S n)))
        with (call_connect :: repeat call_connect (S n)).
      rewrite effects_run_cons, IH. cbn [handle].
      unfold effects at 2. rewrite connect_again. apply app_nil_r.
  - unfold effects. rewrite connect_cases.
    destruct (negb (truthy (websocketUrl env))
              || bool_decide (is_Some (websocketRef s))
              || isCleanedUp s || isConnected s); cbn; lia.
Qed.

(** [reconnect], run in any state, by what it leaves. *)
Lemma reconnect_run env cb s (P : unit * Hook * list Effect -> Prop) :
  (forall s' o,
     List.filter isOnClose o = [] ->
     (forall w, websocketRef s = Some w -> head o = Some (WsClose w)) ->
     audioBufferRef s' = [] ->
     isCleanedUp s' = false ->
     isStopReceived s' = false ->
     isPlayingAudio s' = false ->
     isPlaying s' = false ->
     isConnected s' = false ->
     isAudioNodesConnected s' = false ->
     audioContextRef s' = false ->
     sourceNodeRef s' = false ->
     analyzerRef s' = false ->
     streamRef s' = None ->
     audioWorkletNode s' = false ->
     sourceNode s' = false ->
     (truthy (websocketUrl env) = false ->
      websocketRef s' = None /\ List.filter isNewWebSocket o = []) ->
     (truthy (websocketUrl env) = true ->
      websocketRef s' = Some (length (sockets s))
      /\ List.filter isNewWebSocket o = [NewWebSocket (length (sockets s))]
      /\ sockets s' !! length (sockets s)
         = Some (mkWebSocket CONNECTING (byReconnect cb))) ->
     P (tt, s', o)) ->
  P (reconnect env cb s).
Proof.
  intros HP. unfold reconnect, newWebSocket.
  destruct (truthy (websocketUrl env)) eqn:Hu; cbn [negb];
    exec; apply HP;
    first [ reflexivity
          | cbn; congruence
          | intros w' Hw'; cbn; congruence
          | intros Hurl;
            first [ congruence
                  | split; reflexivity
                  | cbn; rewrite ?length_alter;
                    split; [reflexivity | split; [reflexivity |]];
                    rewrite lookup_app_r, ?length_alter, Nat.sub_diag
                      by (rewrite ?length_alter; lia);
                    reflexivity ] ].
Qed.

(** X22.  [reconnect] tears the old connection down by itself and silently.  In
    any state: it calls close() on the current socket first, if there is
    one; it does not call onClose; and the per-connection state is back to
    its initial values: queue empty, flags clear, marker clear, no context,
    source, analyzer, stream or capture node held.  Without a websocketUrl
    it stops there: no socket is created and none is current.  With one,
    it creates exactly one socket, connecting, with the handlers of
    [reconnect], and makes it the current socket. *)
Theorem reconnect_resets env cb s :
  List.filter isOnClose (effects (reconnect env cb) s) = []
  /\ (forall w, websocketRef s = Some w ->
        head (effects (reconnect env cb) s) = Some (WsClose w))
  /\ audioBufferRef (after (reconnect env cb) s) = []
  /\ isCleanedUp (after (reconnect env cb) s) = false
  /\ isStopReceived (after (reconnect env cb) s) = false
  /\ isPlayingAudio (after (reconnect env cb) s) = false
  /\ isPlaying (after (reconnect env cb) s) = false
  /\ isConnected (after (reconnect env cb) s) = false
  /\ isAudioNodesConnected (after (reconnect env cb) s) = false
  /\ audioContextRef (after (reconnect env cb) s) = false
  /\ sourceNodeRef (after (reconnect env cb) s) = false
  /\ analyzerRef (after (reconnect env cb) s) = false
  /\ streamRef (after (reconnect env cb) s) = None
  /\ audioWorkletNode (after (reconnect env cb) s) = false
  /\ sourceNode (after (reconnect env cb) s) = false
  /\ (truthy (websocketUrl env) = false ->
      websocketRef (after (reconnect env cb) s) = None
      /\ List.filter isNewWebSocket (effects (reconnect env cb) s) = [])
  /\ (truthy (websocketUrl env) = true ->
      websocketRef (after (reconnect env cb) s) = Some (length (sockets s))
      /\ List.filter isNewWebSocket (effects (reconnect env cb) s)
         = [NewWebSocket (length (sockets s))]
      /\ sockets (after (reconnect env cb) s) !! length (sockets s)
         = Some (mkWebSocket CONNECTING (byReconnect cb))).
Proof.
  unfold after, effects. pattern (reconnect env cb s). apply reconnect_run.
  intros s' o. cbn [fst snd]. intuition.
Qed.



Lemma reconnect_opens_socket_witness :
  truthy (websocketUrl exampleEnv) = true
  /\ isCleanedUp (after (reconnect exampleEnv true) closedState) = false
  /\ websocketRef (after (reconnect exampleEnv true) closedState)
     = Some (length (sockets closedState))
  /\ sockets (after (reconnect exampleEnv true) closedState)
       !! length (sockets closedState)
     = Some (mkWebSocket CONNECTING (byReconnect true)).
Proof.
  split; [reflexivity |].
  exact (reconnect_opens_socket exampleEnv true closedState eq_refl).
Defined.


(* --------------------------------------------------------------------- *)
(** *** The open handler *)

(** X23.  When the socket opens on a hook that is not torn down and whose capture
    nodes are not connected yet, and the microphone is granted: the stream
    is kept, the hook is connected, and exactly one frame is sent, the start
    frame.  A failure to load the capture worklet module is not fatal: it
    is reported through onException, no capture node is created, and the
    start frame is sent all the same.  onConnectionSuccess is called, after
    the start frame, only for a socket created by [reconnect] with a
    callback.  Nothing is closed and onClose is not called. *)
Theorem open_starts_session env w h st moduleLoaded s :
  isCleanedUp s = false ->
  isAudioNodesConnected s = false ->
  List.filter isWsSend (effects (onopen env w h (Some st) moduleLoaded) s)
  = [WsSend w start_frame]
  /\ List.filter isCallback (effects (onopen env w h (Some st) moduleLoaded) s)
     = (if moduleLoaded then [] else [OnException])
       ++ match h with
          | byReconnect true => [OnConnectionSuccess]
          | _ => []
          end
  /\ List.filter isWsClose (effects (onopen env w h (Some st) moduleLoaded) s) = []
  /\ isConnected (after (onopen env w h (Some st) moduleLoaded) s) = true
  /\ streamRef (after (onopen env w h (Some st) moduleLoaded) s) = Some st
  /\ isAudioNodesConnected (after (onopen env w h (Some st) moduleLoaded) s) = true
  /\ audioContextRef (after (onopen env w h (Some st) moduleLoaded) s) = true
  /\ audioWorkletNode (after (onopen env w h (Some st) moduleLoaded) s)
     = (moduleLoaded || audioWorkletNode s).
Proof.
  intros Hc Hn. destruct moduleLoaded, h as [| []];
    exec; repeat split; try reflexivity;
    destruct (audioWorkletNode s); reflexivity.
Qed.

Lemma open_starts_session_witness :
  isCleanedUp connectingState = false
  /\ isAudioNodesConnected connectingState = false
  /\ List.filter isWsSend
       (effects (onopen exampleEnv 0 byConnect (Some 7%nat) false) connectingState)
     = [WsSend 0 start_frame]
  /\ List.filter isCallback
       (effects (onopen exampleEnv 0 byConnect (Some 7%nat) false) connectingState)
     = [OnException].
Proof.
  split; [reflexivity |]. split; [reflexivity |].
  destruct (open_starts_session exampleEnv 0%nat byConnect 7%nat false
              connectingState eq_refl eq_refl) as (H1 & H2 & _).
  split; [exact H1 | exact H2].
Defined.

(* --------------------------------------------------------------------- *)
(** *** The playback threshold *)

Lemma getOrCreateAudioContext_playback s :
  audioBufferRef (after getOrCreateAudioContext s) = audioBufferRef s
  /\ backendSampleRate (after getOrCreateAudioContext s) = backendSampleRate s
  /\ isPlayingAudio (after getOrCreateAudioContext s) = isPlayingAudio s
  /\ List.filter isBufferSourceStart (effects getOrCreateAudioContext s) = []
  /\ List.filter isWsSend (effects getOrCreateAudioContext s) = [].
Proof. exec; repeat split; reflexivity. Qed.

(** The [try] around [playNextChunk] in [processAudioChunk] adds a log
    line at most. *)
Lemma caught_after env s :
  after (bind (playNextChunk env) (fun played =>
           match played with
           | normal => skip
           | thrown => emit (LogError "Error processing audio chunk:")
           end)) s
  = after (playNextChunk env) s.
Proof.
  rewrite after_bind. destruct (value (playNextChunk env) s); reflexivity.
Qed.

Lemma caught_starts env s :
  List.filter isBufferSourceStart
    (effects (bind (playNextChunk env) (fun played =>
                match played with
                | normal => skip
                | thrown => emit (LogError "Error processing audio chunk:")
                end)) s)
  = List.filter isBufferSourceStart (effects (playNextChunk env) s).
Proof.
  rewrite effects_bind, List.filter_app.
  destruct (value (playNextChunk env) s); apply app_nil_r.
Qed.

(** X16.  A media chunk that decodes is appended to the queue; playback starts
    when, and only when, the queue then holds a second of audio
    ([bufferSize] samples).  Below the threshold the chunk waits: no buffer
    is started and nothing is sent.  At the threshold, with nothing playing,
    one buffer is started with the oldest samples of the queue, the new
    chunk last, a second or more of them, and the rest stays queued. *)
Theorem playback_starts_at_threshold env payload chunk s :
  decodeChunk env (backendSampleRate s) payload = Some chunk ->
  isPlayingAudio s = false ->
  (queuedSamples (audioBufferRef s ++ [chunk]) < bufferSize ->
   audioBufferRef (after (processAudioChunk env payload) s)
   = audioBufferRef s ++ [chunk]
   /\ List.filter isBufferSourceStart (effects (processAudioChunk env payload) s) = []
   /\ List.filter isWsSend (effects (processAudioChunk env payload) s) = [])
  /\ (bufferSize <= queuedSamples (audioBufferRef s ++ [chunk]) ->
      exists audioData,
        List.filter isBufferSourceStart (effects (processAudioChunk env payload) s)
        = [BufferSourceStart audioData]
        /\ audioData
             ++ concat (audioBufferRef (after (processAudioChunk env payload) s))
           = concat (audioBufferRef s ++ [chunk])
        /\ bufferSize <= Z.of_nat (length audioData)).
Proof.
  intros Hd Hp. unfold processAudioChunk.
  rewrite !after_bind, !effects_bind, !List.filter_app.
  destruct (getOrCreateAudioContext_playback s) as (Hq & Hr & Hpl & Hs1 & Hs2).
  rewrite Hs1, Hs2.
  set (s1 := after getOrCreateAudioContext s) in *.
  cbn [read value after effects fst snd List.filter app]. rewrite Hr, Hd.
  rewrite !after_bind, !effects_bind, !List.filter_app.
  cbn [read modify value after effects fst snd List.filter app
       audioBufferRef set_audioBufferRef].
  rewrite Hq.
  set (s2 := set_audioBufferRef (audioBufferRef s ++ [chunk]) s1).
  assert (Hq2 : audioBufferRef s2 = audioBufferRef s ++ [chunk]) by reflexivity.
  assert (Hp2 : isPlayingAudio s2 = false) by (rewrite <- Hp; exact Hpl).
  split.
  - intros Hlt. apply Z.leb_gt in Hlt. rewrite Hlt.
    repeat split; reflexivity.
  - intros Hge. pose proof Hge as Hle. apply Z.leb_le in Hge. rewrite Hge.
    assert (Hne : audioBufferRef s2 <> []).
    { rewrite Hq2. destruct (audioBufferRef s); discriminate. }
    rewrite caught_after, caught_starts.
    destruct (playNextChunk_idle env s2 Hp2 Hne) as (Hstart & _ & Hrest & _).
    rewrite Hrest, Hq2 in *.
    pose proof (takeChunks_split (audioBufferRef s ++ [chunk]) 0) as Hsplit.
    assert (Hlen : bufferSize
                   <= Z.of_nat (length (concat (fst (takeChunks
                                   (audioBufferRef s ++ [chunk]) 0))))).
    { rewrite <- queuedSamples_concat.
      pose proof (takeChunks_enough (audioBufferRef s ++ [chunk]) 0) as [H | H];
        [lia |].
      rewrite H, app_nil_r in Hsplit. rewrite Hsplit. exact Hle. }
    destruct (concat (fst (takeChunks (audioBufferRef s ++ [chunk]) 0)))
      as [| sample samples] eqn:Htaken.
    { cbn in Hlen.
      unfold bufferSize, SAMPLE_RATE, CHANNELS, BUFFER_DURATION in Hlen. lia. }
    exists (sample :: samples). split; [exact Hstart |]. split; [| exact Hlen].
    rewrite <- Htaken, <- concat_app, Hsplit. reflexivity.
Qed.

Lemma playback_starts_at_threshold_witness :
  decodeChunk exampleEnv (backendSampleRate liveState) "AAABAA=="
  = Some [(0 # 32767)%Q; (1 # 32767)%Q]
  /\ isPlayingAudio liveState = false
  /\ (queuedSamples (audioBufferRef liveState ++ [[(0 # 32767)%Q; (1 # 32767)%Q]]) < bufferSize ->
      audioBufferRef (after (processAudioChunk exampleEnv "AAABAA==") liveState)
      = audioBufferRef liveState ++ [[(0 # 32767)%Q; (1 # 32767)%Q]]).
Proof.
  assert (H1 : decodeChunk exampleEnv (backendSampleRate liveState) "AAABAA=="
               = Some [(0 # 32767)%Q; (1 # 32767)%Q]) by reflexivity.
  assert (H2 : isPlayingAudio liveState = false) by reflexivity.
  split; [exact H1 |]. split; [exact H2 |].
  intros Hlt.
  exact (proj1 (proj1 (playback_starts_at_threshold exampleEnv "AAABAA=="
                         [(0 # 32767)%Q; (1 # 32767)%Q] liveState H1 H2) Hlt)).
Defined.


(* --------------------------------------------------------------------- *)
(** *** Releasing the capture nodes *)

(** X24.  [stopProcessing] (the hook's stopRecording) disconnects each capture
    node that is held, the worklet node first, and leaves none held; called
    again, it does nothing. *)
Theorem stopProcessing_releases_once s :
  effects stopProcessing s
  = (if audioWorkletNode s then [WorkletDisconnect] else [])
    ++ (if sourceNode s then [CaptureSourceDisconnect] else [])
  /\ audioWorkletNode (after stopProcessing s) = false
  /\ sourceNode (after stopProcessing s) = false
  /\ stopProcessing (after stopProcessing s) = (tt, after stopProcessing s, []).
Proof.
  unfold stopProcessing, after, effects, bind, read, modify, emit, skip, ret.
  destruct (audioWorkletNode s) eqn:H1, (sourceNode s) eqn:H2;
    cbn; rewrite ?H1, ?H2; cbn; rewrite ?H1, ?H2; repeat split; reflexivity.
Qed.

End HookProps.

(* ===================================================================== *)
(** ** Properties of the capture worklet *)
(* ===================================================================== *)

Module WorkletProps.

Import Worklet.

Local Open Scope nat_scope.

(** One run of the loop: the size is kept, every chunk posted is a full
    buffer, and the samples that were pending followed by the new ones are
    the chunks posted followed by what is pending now. *)
Lemma processSamples_spec (samples : list Q) (currentTime : Q) (p : AudioProcessor) :
  wellFormed p ->
  wellFormed (fst (processSamples samples currentTime p))
  /\ bufferSize (fst (processSamples samples currentTime p)) = bufferSize p
  /\ Forall (fun m => length (data m) = bufferSize p /\ timestamp m = currentTime)
            (snd (processSamples samples currentTime p))
  /\ take (bufferIndex p) (buffer p) ++ samples
     = concat (map data (snd (processSamples samples currentTime p)))
       ++ take (bufferIndex (fst (processSamples samples currentTime p)))
               (buffer (fst (processSamples samples currentTime p)))
  /\ bufferIndex p + length samples
     = length (snd (processSamples samples currentTime p)) * bufferSize p
       + bufferIndex (fst (processSamples samples currentTime p)).
Proof.
  revert p. induction samples as [| x rest IH]; intros p [Hlen Hidx].
  - cbn. repeat split; try assumption; try constructor.
    + rewrite app_nil_r. reflexivity.
    + lia.
  - cbn [processSamples].
    assert (Hfilled : length (<[bufferIndex p := x]> (buffer p)) = bufferSize p)
      by (rewrite length_insert; exact Hlen).
    assert (Htake : take (S (bufferIndex p)) (<[bufferIndex p := x]> (buffer p))
                    = take (bufferIndex p) (buffer p) ++ [x]).
    { rewrite (take_S_r _ _ x) by (apply list_lookup_insert_eq; lia).
      rewrite take_insert_ge by lia. reflexivity. }
    destruct (bufferSize p <=? S (bufferIndex p)) eqn:Hfull.
    + apply Nat.leb_le in Hfull.
      assert (Hnext : S (bufferIndex p) = bufferSize p) by lia.
      set (p0 := {| bufferSize := bufferSize p;
                    buffer := <[bufferIndex p := x]> (buffer p);
                    bufferIndex := 0 |}).
      assert (H0 : wellFormed p0) by (split; cbn; [exact Hfilled | lia]).
      specialize (IH p0 H0).
      destruct (processSamples rest currentTime p0) as [p' posted].
      cbn [fst snd] in *.
      destruct IH as (Hwf & Hsize & Hall & Hcons & Hcount).
      repeat split; try apply Hwf; try assumption.
      * constructor; [split; [exact Hfilled | reflexivity] | exact Hall].
      * cbn [map concat data]. rewrite <- app_assoc, <- Hcons. cbn [take app].
        rewrite <- (take_ge (<[bufferIndex p := x]> (buffer p)) (S (bufferIndex p)))
          at 1 by lia.
        rewrite Htake, <- app_assoc. reflexivity.
      * cbn [length]. cbn in Hcount. lia.
    + apply Nat.leb_gt in Hfull.
      set (p0 := {| bufferSize := bufferSize p;
                    buffer := <[bufferIndex p := x]> (buffer p);
                    bufferIndex := S (bufferIndex p) |}).
      assert (H0 : wellFormed p0) by (split; cbn; [exact Hfilled | lia]).
      specialize (IH p0 H0).
      destruct IH as (Hwf & Hsize & Hall & Hcons & Hcount).
      repeat split; try apply Hwf; try assumption.
      * rewrite <- Hcons. cbn [bufferIndex buffer p0].
        rewrite Htake, <- app_assoc. reflexivity.
      * cbn [length]. cbn in Hcount. lia.
Qed.


Lemma process_spec (input : option (list Q)) (currentTime : Q) (p : AudioProcessor) :
  wellFormed p ->
  wellFormed (fst (process input currentTime p))
  /\ bufferSize (fst (process input currentTime p)) = bufferSize p
  /\ Forall (fun m => length (data m) = bufferSize p /\ timestamp m = currentTime)
            (snd (process input currentTime p))
  /\ take (bufferIndex p) (buffer p) ++ default [] input
     = concat (map data (snd (process input currentTime p)))
       ++ take (bufferIndex (fst (process input currentTime p)))
               (buffer (fst (process input currentTime p)))
  /\ bufferIndex p + length (default [] input)
     = length (snd (process input currentTime p)) * bufferSize p
       + bufferIndex (fst (process input currentTime p)).
Proof.
  intros Hp. destruct input as [samples |]; cbn [process default].
  - apply processSamples_spec, Hp.
  - cbn. repeat split; try apply Hp; try constructor.
    + rewrite app_nil_r. reflexivity.
    + lia.
Qed.

(** The same over any number of calls of [process]. *)
Lemma render_spec (quanta : list (option (list Q) * Q)) (p : AudioProcessor) :
  wellFormed p ->
  wellFormed (fst (render quanta p))
  /\ bufferSize (fst (render quanta p)) = bufferSize p
  /\ Forall (fun m => length (data m) = bufferSize p) (snd (render quanta p))
  /\ take (bufferIndex p) (buffer p) ++ samplesOf quanta
     = concat (map data (snd (render quanta p)))
       ++ take (bufferIndex (fst (render quanta p))) (buffer (fst (render quanta p)))
  /\ bufferIndex p + length (samplesOf quanta)
     = length (snd (render quanta p)) * bufferSize p
       + bufferIndex (fst (render quanta p)).
Proof.
  revert p. induction quanta as [| [input currentTime] rest IH]; intros p Hp.
  - cbn. repeat split; try apply Hp; try constructor.
    + rewrite app_nil_r. reflexivity.
    + lia.
  - cbn [render].
    pose proof (process_spec input currentTime p Hp) as H1.
    destruct (process input currentTime p) as [p1 posted1]. cbn [fst snd] in H1.
    destruct H1 as (Hwf1 & Hsize1 & Hall1 & Hcons1 & Hcount1).
    specialize (IH p1 Hwf1).
    destruct (render rest p1) as [p2 posted2]. cbn [fst snd] in *.
    destruct IH as (Hwf2 & Hsize2 & Hall2 & Hcons2 & Hcount2).
    unfold samplesOf in *. cbn [map concat fst].
    rewrite length_app, map_app, concat_app, length_app.
    split; [exact Hwf2 |]. split; [congruence |]. split; [| split].
    + apply Forall_app. split.
      * eapply Forall_impl; [exact Hall1 |]. intros m [Hm _]. exact Hm.
      * eapply Forall_impl; [exact Hall2 |]. intros m Hm. congruence.
    + rewrite app_assoc, Hcons1, <- !app_assoc, Hcons2. reflexivity.
    + rewrite Hsize1 in Hcount2. lia.
Qed.

(** X11.  No sample is lost, repeated or moved: over any sequence of calls of
    [process], the samples pending at the start followed by the samples of
    the inputs are the chunks posted, in order, followed by the samples
    pending at the end. *)
Theorem render_conserves_samples
    (quanta : list (option (list Q) * Q)) (p : AudioProcessor) :
  wellFormed p ->
  take (bufferIndex p) (buffer p) ++ samplesOf quanta
  = concat (map data (snd (render quanta p)))
    ++ take (bufferIndex (fst (render quanta p))) (buffer (fst (render quanta p))).
Proof. intros Hp. apply (render_spec quanta p Hp). Qed.

(** X12.  Every chunk posted is a full buffer of [bufferSize] samples; the
    number of chunks posted and the cursor left are the quotient and the
    remainder of the samples at hand by [bufferSize]; the cursor stays
    inside the buffer. *)
Theorem render_posts_full_buffers
    (quanta : list (option (list Q) * Q)) (p : AudioProcessor) :
  wellFormed p ->
  Forall (fun m => length (data m) = bufferSize p) (snd (render quanta p))
  /\ length (snd (render quanta p))
     = (bufferIndex p + length (samplesOf quanta)) / bufferSize p
  /\ bufferIndex (fst (render quanta p))
     = (bufferIndex p + length (samplesOf quanta)) mod bufferSize p
  /\ wellFormed (fst (render quanta p)).
Proof.
  intros Hp.
  destruct (render_spec quanta p Hp) as (Hwf & Hsize & Hall & _ & Hcount).
  destruct Hwf as [Hlen Hidx]. rewrite Hsize in Hidx.
  split; [exact Hall |].
  assert (Hpos : bufferSize p <> 0) by (destruct Hp; lia).
  split; [| split].
  - apply (Nat.div_unique _ _ _ (bufferIndex (fst (render quanta p))));
      [exact Hidx | lia].
  - apply (Nat.mod_unique _ _ (length (snd (render quanta p))));
      [exact Hidx | lia].
  - split; [exact Hlen | rewrite Hsize; exact Hidx].
Qed.

(** A processor built for a rate of 3 Hz or more. *)
Lemma construct_wellFormed (sampleRate : Z) :
  (3 <= sampleRate)%Z ->
  exists p,
    construct (Some sampleRate) = Some p
    /\ wellFormed p
    /\ bufferIndex p = 0
    /\ Z.of_nat (bufferSize p) = (sampleRate * 400 / 1000)%Z.
Proof.
  intros Hrate. unfold construct.
  change (default 44100%Z (Some sampleRate)) with sampleRate. cbv zeta.
  assert (Hsize : (1 <= sampleRate * 400 / 1000)%Z).
  { apply Z.div_le_lower_bound; lia. }
  replace (sampleRate * 400 / 1000 <? 0)%Z with false
    by (symmetry; apply Z.ltb_ge; lia).
  eexists. split; [reflexivity |].
  unfold wellFormed. cbn [bufferSize buffer bufferIndex].
  split; [split; [apply repeat_length | lia] |].
  split; [reflexivity | lia].
Qed.

(** X13.  From a processor built for a rate of 3 Hz or more: the buffer holds
    400 ms of samples ([sampleRate * 400 / 1000], rounded down), and
    whatever the calls of [process], the chunks posted are the input
    samples cut, in order, into pieces of that size; the samples of an
    incomplete last piece are kept for later. *)
Theorem worklet_chunks_the_input
    (sampleRate : Z) (quanta : list (option (list Q) * Q)) :
  (3 <= sampleRate)%Z ->
  exists p,
    construct (Some sampleRate) = Some p
    /\ Z.of_nat (bufferSize p) = (sampleRate * 400 / 1000)%Z
    /\ Forall (fun m => length (data m) = bufferSize p) (snd (render quanta p))
    /\ length (snd (render quanta p)) = length (samplesOf quanta) / bufferSize p
    /\ concat (map data (snd (render quanta p)))
       = take (length (snd (render quanta p)) * bufferSize p) (samplesOf quanta).
Proof.
  intros Hrate.
  destruct (construct_wellFormed sampleRate Hrate) as (p & Hp & Hwf & H0 & Hsize).
  exists p. split; [exact Hp |]. split; [exact Hsize |].
  destruct (render_spec quanta p Hwf) as (Hwf' & Hsize' & Hall & Hcons & Hcount).
  rewrite H0 in Hcons, Hcount. rewrite take_0 in Hcons.
  cbn [app Nat.add] in Hcons, Hcount.
  split; [exact Hall |].
  assert (Hpos : bufferSize p <> 0) by (destruct Hwf; lia).
  destruct Hwf' as [_ Hidx]. rewrite Hsize' in Hidx.
  split.
  - apply (Nat.div_unique _ _ _ (bufferIndex (fst (render quanta p))));
      [exact Hidx | lia].
  - rewrite Hcons.
    assert (Hl : length (concat (map data (snd (render quanta p))))
                 = length (snd (render quanta p)) * bufferSize p).
    { clear - Hall. induction Hall as [| m l Hm _ IH]; [reflexivity |].
      cbn [map concat]. rewrite length_app, IH, Hm. cbn. lia. }
    rewrite <- Hl. symmetry. apply take_app_length.
Qed.

Lemma render_conserves_samples_witness :
  wellFormed (mkAudioProcessor 2 [0; 0]%Q 0)
  /\ samplesOf [(Some [1; 2; 3]%Q, 0%Q); (None, 1%Q); (Some [4; 5]%Q, 2%Q)]
     = concat (map data
         (snd (render [(Some [1; 2; 3]%Q, 0%Q); (None, 1%Q); (Some [4; 5]%Q, 2%Q)]
                      (mkAudioProcessor 2 [0; 0]%Q 0))))
       ++ [5%Q].
Proof.
  assert (H : wellFormed (mkAudioProcessor 2 [0; 0]%Q 0)) by (split; cbn; lia).
  split; [exact H |].
  exact (render_conserves_samples
           [(Some [1; 2; 3]%Q, 0%Q); (None, 1%Q); (Some [4; 5]%Q, 2%Q)] _ H).
Defined.

Lemma render_posts_full_buffers_witness :
  wellFormed (mkAudioProcessor 2 [0; 0]%Q 0)
  /\ length (snd (render [(Some [1; 2; 3]%Q, 0%Q); (Some [4; 5]%Q, 2%Q)]
                         (mkAudioProcessor 2 [0; 0]%Q 0)))
     = 2.
Proof.
  assert (H : wellFormed (mkAudioProcessor 2 [0; 0]%Q 0)) by (split; cbn; lia).
  split; [exact H |].
  exact (proj1 (proj2 (render_posts_full_buffers
           [(Some [1; 2; 3]%Q, 0%Q); (Some [4; 5]%Q, 2%Q)] _ H))).
Defined.

Lemma worklet_chunks_the_input_witness :
  (3 <= 44100)%Z
  /\ exists p,
       construct (Some 44100%Z) = Some p
       /\ Z.of_nat (bufferSize p) = (44100 * 400 / 1000)%Z
       /\ Forall (fun m => length (data m) = bufferSize p)
                 (snd (render [(Some [1; 2; 3]%Q, 0%Q)] p))
       /\ length (snd (render [(Some [1; 2; 3]%Q, 0%Q)] p))
          = length (samplesOf [(Some [1; 2; 3]%Q, 0%Q)]) / bufferSize p
       /\ concat (map data (snd (render [(Some [1; 2; 3]%Q, 0%Q)] p)))
          = take (length (snd (render [(Some [1; 2; 3]%Q, 0%Q)] p)) * bufferSize p)
                 (samplesOf [(Some [1; 2; 3]%Q, 0%Q)]).
Proof.
  assert (H : (3 <= 44100)%Z) by lia.
  split; [exact H |].
  exact (worklet_chunks_the_input 44100 [(Some [1; 2; 3]%Q, 0%Q)] H).
Defined.

End WorkletProps.
